(** * Minesweeper Co-op: client store, grid logic, socket and server set-up

    A shallow embedding of the parts of the repository that its
    specification makes statements about:

    - [Store]   : [src/app/store.tsx], the Zustand store;
    - [Grid]    : the Grid component (second half of
                  [src/components/Timer.tsx]): progress counters,
                  progress percentages and the chording effect;
    - [SocketClient] : the client socket factory [initSocket];
    - [Server]  : [src/server/utils/initializeClient.js], CORS and
                  Socket.io options;
    - [Redis]   : the session-store client [initializeRedisClient];
    - [Timer]   : the Timer component (first half of
                  [src/components/Timer.tsx]): [formatTime] and the
                  ticking effect;
    - [GridView] : the Grid component's two timer effects and the
                  conditions under which it shows its banners and buttons.

    JavaScript numbers that hold indices, coordinates, sizes and seconds
    are integers ([Z]).  The two numbers the progress bars divide,
    [pvpOpponentProgress] and [pvpTotalSafeCells], arrive from the server
    and are kept as what a JavaScript number is, an IEEE 754 binary64
    ([PrimFloat]), so that quotient, product and rounding are the ones
    the browser computes.  Objects keyed by strings are [gmap string _];
    arrays are lists. *)

From stdpp Require Import base decidable option list strings pretty gmap.
From Stdlib Require Import ZArith Bool Lia PrimFloat FloatOps SpecFloat Uint63.

Local Open Scope Z_scope.

(* ====================================================================== *)
(** * The store ([src/app/store.tsx])                                      *)
(* ====================================================================== *)

Module Store.

(** [interface Cell] *)
Record Cell := mkCell {
  isMine : bool;
  isOpen : bool;
  isFlagged : bool;
  nearbyMines : Z
}.

(** [interface PlayerStats] *)
Module PlayerStats.
Record t := mk { name : string; score : Z }.
End PlayerStats.

(** [interface PlayerHover] *)
Module PlayerHover.
Record t := mk { row : Z; col : Z; name : string; color : string }.
End PlayerHover.

(** The string-literal union typing [pvpOpponentStatus]. *)
Inductive OpponentStatus := waiting | playing | won | failed | disconnected.

(** The data keys of [interface MinesweeperState].  The setter members of
    the interface are functions that no [set] call ever assigns; they are
    the definitions further down. *)
Inductive Field :=
  (* game state *)
  | board | gameOver | gameWon
  (* board configuration *)
  | numRows | numCols | numMines | difficulty | mode
  (* room and player data *)
  | room | playerJoined | name | playerStatsInRoom | gameOverName | playerHovers
  (* PVP-specific state *)
  | pvpStarted | pvpPlayerIndex | pvpOpponentName | pvpOpponentStatus
  | pvpWinner | pvpRoomReady | pvpIsHost | pvpOpponentProgress
  | pvpTotalSafeCells
  (* timer state *)
  | timerSeconds | timerRunning
  (* UI state *)
  | isChecked | r | c | leftClick | rightClick | bothPressed.

#[global] Instance Field_eq_dec : EqDecision Field.
Proof. solve_decision. Defined.

(** Every key in declaration order: what [{...state}] enumerates. *)
Definition allFields : list Field :=
  [ board; gameOver; gameWon;
    numRows; numCols; numMines; difficulty; mode;
    room; playerJoined; name; playerStatsInRoom; gameOverName; playerHovers;
    pvpStarted; pvpPlayerIndex; pvpOpponentName; pvpOpponentStatus;
    pvpWinner; pvpRoomReady; pvpIsHost; pvpOpponentProgress;
    pvpTotalSafeCells;
    timerSeconds; timerRunning;
    isChecked; r; c; leftClick; rightClick; bothPressed ].

(** The TypeScript type of each key. [T | null] is [option T]. *)
Definition fieldType (f : Field) : Type :=
  match f with
  | board => list (list Cell)
  | gameOver | gameWon => bool
  | numRows | numCols | numMines => Z
  | difficulty | mode => string
  | room => string
  | playerJoined => bool
  | name => string
  | playerStatsInRoom => list PlayerStats.t
  | gameOverName => string
  | playerHovers => gmap string PlayerHover.t
  | pvpStarted => bool
  | pvpPlayerIndex => option Z
  | pvpOpponentName => string
  | pvpOpponentStatus => OpponentStatus
  | pvpWinner => option string
  | pvpRoomReady | pvpIsHost => bool
  | pvpOpponentProgress | pvpTotalSafeCells => float
  | timerSeconds => Z
  | timerRunning => bool
  | isChecked => bool
  | r | c => Z
  | leftClick | rightClick | bothPressed => bool
  end.

(** The store's state object: one value of the right type under each key. *)
Definition MinesweeperState : Type := forall f : Field, fieldType f.

(** One [key: value] entry of an object literal, and an object literal
    handed to [set] ([Partial<MinesweeperState>]): its entries in order. *)
Record Entry := entry { key : Field; value : fieldType key }.
Definition Partial := list Entry.

Notation "k ::= v" := (entry k v) (at level 60, no associativity).

(** Writing one entry into a state object. *)
Definition assign (e : Entry) (s : MinesweeperState) : MinesweeperState :=
  fun f =>
    match decide (key e = f) with
    | left same => eq_rect (key e) fieldType (value e) f same
    | right _ => s f
    end.

(** Zustand's [set(partial)]: a shallow merge of [partial] over the
    current state, later entries of the literal winning. *)
Definition set (partial : Partial) (s : MinesweeperState) : MinesweeperState :=
  foldl (fun acc e => assign e acc) s partial.

(** Zustand's [set(fn)]: the partial is computed from the current state. *)
Definition setWith (fn : MinesweeperState -> Partial) (s : MinesweeperState)
  : MinesweeperState :=
  set (fn s) s.

(** The spread [{...state}]. *)
Definition spread (s : MinesweeperState) : Partial :=
  map (fun f => f ::= s f) allFields.

(** ** Initial state *)

Definition initialState : MinesweeperState :=
  fun f =>
    match f with
    | board => []
    | gameOver => false
    | gameWon => false
    | numRows => 16
    | numCols => 16
    | numMines => 40
    | difficulty => "Medium"%string
    | mode => "co-op"%string
    | room => ""%string
    | name => ""%string
    | playerJoined => false
    | playerStatsInRoom => []
    | gameOverName => ""%string
    | playerHovers => ∅
    | pvpStarted => false
    | pvpPlayerIndex => None
    | pvpOpponentName => ""%string
    | pvpOpponentStatus => waiting
    | pvpWinner => None
    | pvpRoomReady => false
    | pvpIsHost => false
    | pvpOpponentProgress => 0%float
    | pvpTotalSafeCells => 0%float
    | timerSeconds => 0
    | timerRunning => false
    | isChecked => true
    | r => -1
    | c => -1
    | leftClick => false
    | rightClick => false
    | bothPressed => false
    end.

(** ** Setters *)

Definition setBoard (newBoard : list (list Cell)) := set [board ::= newBoard].
Definition setGameOver (isGameOver : bool) := set [gameOver ::= isGameOver].
Definition setGameWon (isGameWon : bool) := set [gameWon ::= isGameWon].
Definition setRoom (newRoom : string) := set [room ::= newRoom].
Definition setPlayerJoined (isPlayerJoined : bool) :=
  set [playerJoined ::= isPlayerJoined].
Definition setDimensions (rows cols mines : Z) :=
  set [numRows ::= rows; numCols ::= cols; numMines ::= mines].
Definition setDifficulty (diff : string) := set [difficulty ::= diff].
Definition setMode (m : string) := set [mode ::= m].
Definition setName (newName : string) := set [name ::= newName].
Definition setPlayerStatsInRoom (newStats : list PlayerStats.t) :=
  set [playerStatsInRoom ::= newStats].
Definition setIsChecked (checked : bool) := set [isChecked ::= checked].
Definition setCoord (newR newC : Z) := set [r ::= newR; c ::= newC].
Definition setLeftClick (lClick : bool) := set [leftClick ::= lClick].
Definition setRightClick (rClick : bool) := set [rightClick ::= rClick].
Definition setBothPressed (b : bool) := set [bothPressed ::= b].

(** [setCell]: rebuild the board with [Array.prototype.map], replacing
    the element whose two indices are strictly equal to [row] and [col].
    The indices [map] passes are the naturals [0 .. length-1]; [row] and
    [col] are whatever numbers the caller gave. *)
Definition setCell (row col : Z) (newCell : Cell) : MinesweeperState -> MinesweeperState :=
  setWith (fun state =>
    let newBoard :=
      imap (fun rowIndex r =>
        imap (fun colIndex c =>
          if (Z.of_nat rowIndex =? row) && (Z.of_nat colIndex =? col)
          then newCell else c) r)
        (state board) in
    spread state ++ [board ::= newBoard]).

Definition setGameOverName (n : string) := set [gameOverName ::= n].

Definition updatePlayerHover (id : string) (row col : Z) (n color : string) :=
  setWith (fun state =>
    [playerHovers ::= <[id := PlayerHover.mk row col n color]> (state playerHovers)]).

Definition removePlayerHover (id : string) :=
  setWith (fun state =>
    let newHovers := delete id (state playerHovers) in
    [playerHovers ::= newHovers]).

Definition clearAllHovers := set [playerHovers ::= (∅ : gmap string PlayerHover.t)].

Definition setPvpStarted (started : bool) := set [pvpStarted ::= started].
Definition setPvpPlayerIndex (index : option Z) := set [pvpPlayerIndex ::= index].
Definition setPvpOpponentName (n : string) := set [pvpOpponentName ::= n].
Definition setPvpOpponentStatus (status : OpponentStatus) :=
  set [pvpOpponentStatus ::= status].
Definition setPvpWinner (winner : option string) := set [pvpWinner ::= winner].
Definition setPvpRoomReady (ready : bool) := set [pvpRoomReady ::= ready].
Definition setPvpIsHost (isHost : bool) := set [pvpIsHost ::= isHost].
Definition setPvpOpponentProgress (progress : float) :=
  set [pvpOpponentProgress ::= progress].
Definition setPvpTotalSafeCells (total : float) := set [pvpTotalSafeCells ::= total].

(** [resetPvpState]: one [set] call with an eleven-entry literal. *)
Definition resetPvpState : MinesweeperState -> MinesweeperState :=
  set [ pvpStarted ::= false;
        pvpPlayerIndex ::= (None : option Z);
        pvpOpponentName ::= ""%string;
        pvpOpponentStatus ::= waiting;
        pvpWinner ::= (None : option string);
        pvpRoomReady ::= false;
        pvpIsHost ::= false;
        pvpOpponentProgress ::= 0%float;
        pvpTotalSafeCells ::= 0%float;
        gameOver ::= false;
        gameWon ::= false ].

Definition setTimerSeconds (seconds : Z) := set [timerSeconds ::= seconds].
Definition setTimerRunning (running : bool) := set [timerRunning ::= running].
Definition resetTimer := set [timerSeconds ::= 0; timerRunning ::= false].

(** The keys an object literal mentions. *)
Definition keys (p : Partial) : list Field := map key p.

End Store.


(* ====================================================================== *)
(** * JavaScript numbers                                                   *)
(* ====================================================================== *)

Module Number.

(** The number an integer counter denotes: the binary64 nearest to it
    (exact below [2^53]). *)
Definition ofZ (z : Z) : float :=
  SF2Prim (binary_normalize prec emax z 0 false).

(** [Math.round]: the integer nearest to [x], ties going up; [NaN], the
    infinities, zeros and integers are returned as they are, and a result
    of zero keeps the sign of [x].  For [x = ±m·2^e] with [e < 0] the
    nearest integer is [floor ((±2m + 2^-e) / 2^(1-e))]. *)
Definition Math_round (x : float) : float :=
  match Prim2SF x with
  | S754_finite s m e =>
      if 0 <=? e then x
      else
        let twice := if s then - (2 * Z.pos m) else 2 * Z.pos m in
        let n := (twice + 2 ^ (- e)) / 2 ^ (1 - e) in
        if n =? 0 then (if s then neg_zero else zero) else ofZ n
  | _ => x
  end.

(** Arithmetic that keeps a record of the divisions it performs, as
    (dividend, divisor) pairs in evaluation order. *)
Definition Traced (A : Type) : Type := A * list (float * float).

Definition ret {A} (a : A) : Traced A := (a, []).

Definition bind {A B} (m : Traced A) (k : A -> Traced B) : Traced B :=
  let '(a, t1) := m in
  let '(b, t2) := k a in
  (b, t1 ++ t2).

Definition divide (x y : float) : Traced float := ((x / y)%float, [(x, y)]).

Definition divisions {A} (m : Traced A) : list (float * float) := snd m.

End Number.

(* ====================================================================== *)
(** * The Grid component (in [src/components/Timer.tsx])                   *)
(* ====================================================================== *)

Module Grid.
Import Store.

#[local] Instance Cell_inhabited : Inhabited Cell :=
  populate (mkCell false false false 0).

(** [for (let i = 0; i < n; i++) body], threading the loop's variables. *)
Definition forLoop {A} (n : nat) (body : nat -> A -> A) (init : A) : A :=
  foldl (fun acc i => body i acc) init (seq 0 n).


(** [ownProgress]: the two nested index loops over [board]. *)
Definition ownProgress (s : MinesweeperState) : Z :=
  let board : list (list Cell) := s board in
  forLoop (length board) (fun i revealedCount =>
    forLoop (length (board !!! i)) (fun j revealedCount =>
      if isOpen ((board !!! i) !!! j) && negb (isMine ((board !!! i) !!! j))
      then revealedCount + 1 else revealedCount)
    revealedCount) 0.

(** [opponentProgressPercent] *)
Definition opponentProgressPercent (s : MinesweeperState) : Number.Traced float :=
  if (s pvpTotalSafeCells <=? 0)%float then Number.ret 0%float
  else
    Number.bind (Number.divide (s pvpOpponentProgress) (s pvpTotalSafeCells))
      (fun q => Number.ret (Number.Math_round (q * 100)%float)).

(** [ownProgressPercent] *)
Definition ownProgressPercent (s : MinesweeperState) : Number.Traced float :=
  if (s pvpTotalSafeCells <=? 0)%float then Number.ret 0%float
  else
    Number.bind (Number.divide (Number.ofZ (ownProgress s)) (s pvpTotalSafeCells))
      (fun q => Number.ret (Number.Math_round (q * 100)%float)).

(** ** Effects

    An effect of the component acts on the store and may invoke the
    callbacks the parent passed as props; the invocations are recorded
    in call order. *)
Inductive PropCall :=
  | leaveRoom | resetGame
  | toggleFlag (row col : Z)
  | openCell (row col : Z)
  | chordCell (row col : Z)
  | emitConfetti
  | emitCellHover (row col : Z)
  | handleBoardLeave | startPvpGame | resetMyBoard | pvpRematch.

Record World := mkWorld {
  store : MinesweeperState;
  calls : list PropCall
}.

Definition Effect := World -> World.

Definition onStore (f : MinesweeperState -> MinesweeperState) : Effect :=
  fun w => mkWorld (f (store w)) (calls w).

Definition invoke (p : PropCall) : Effect :=
  fun w => mkWorld (store w) (calls w ++ [p]).

Definition skip : Effect := fun w => w.

Definition andThen (e1 e2 : Effect) : Effect := fun w => e2 (e1 w).
Notation "e1 ;; e2" := (andThen e1 e2)
  (at level 100, e2 at level 200, right associativity).

(** The chording-detection effect.  [leftClick], [rightClick], [r] and
    [c] are the values of the render the effect belongs to. *)
Definition chordingEffect : Effect :=
  fun w =>
    let s := store w in
    if s leftClick && s rightClick then
      (onStore (setBothPressed true) ;;
       (if (s r >=? 0) && (s c >=? 0)
        then invoke (chordCell (s r) (s c))
        else skip)) w
    else if negb (s leftClick) && negb (s rightClick) then
      onStore (setBothPressed false) w
    else w.

(** What one run of an effect added to the recorded calls. *)
Definition issued (e : Effect) (w : World) : list PropCall :=
  drop (length (calls w)) (calls (e w)).

(** The values of the effect's dependency array
    [[leftClick, rightClick, r, c, chordCell, setBothPressed]]; the two
    functions in it are stable and never differ between renders. *)
Definition Deps : Type := bool * bool * Z * Z.

Definition deps (s : MinesweeperState) : Deps :=
  (s leftClick, s rightClick, s r, s c).

(** React runs the effect after the first render, and after a later
    render when a dependency differs from the previous render's. *)
Definition afterRender (previous : option Deps) : Effect :=
  fun w =>
    if decide (previous = Some (deps (store w))) then w else chordingEffect w.

(** A session: the store is updated (by whoever holds its setters), the
    component renders, the effect runs if it is due; and so on. *)
Fixpoint session (updates : list (MinesweeperState -> MinesweeperState))
    (previous : option Deps) (w : World) : World :=
  match updates with
  | [] => w
  | update :: rest =>
      let rendered := onStore update w in
      session rest (Some (deps (store rendered))) (afterRender previous rendered)
  end.

End Grid.

(* ====================================================================== *)
(** * [process.env] and JavaScript truthiness                              *)
(* ====================================================================== *)

Module JS.

(** [process.env]: a variable that is not set reads as [undefined]. *)
Definition Env := gmap string string.

(** A value of type [string | undefined]. *)
Definition Str := option string.

(** Truthiness of a [string | undefined]: [undefined] and the empty
    string are falsy. *)
Definition truthy (v : Str) : bool :=
  match v with
  | Some s => negb (String.eqb s "")
  | None => false
  end.

(** [a || b] *)
Definition or (a b : Str) : Str := if truthy a then a else b.

(** [array.filter(Boolean)] *)
Definition filterBoolean (l : list Str) : list Str := List.filter truthy l.

(** [array.includes(x)] *)
Definition includes (l : list Str) (x : Str) : bool := bool_decide (x ∈ l).

End JS.

(* ====================================================================== *)
(** * The client socket factory ([initSocket])                             *)
(* ====================================================================== *)

Module SocketClient.
Import JS.

Definition serverURL (env : Env) : Str :=
  or (env !! "NEXT_PUBLIC_SERVER_URL"%string)
     (if bool_decide (env !! "NODE_ENV"%string = Some "development"%string)
      then Some "http://localhost:3001"%string
      else Some "https://nameless-coast-33840-33c3fd45fe2d.herokuapp.com"%string).

(** The options object given to [io], and what [io] returns: a socket
    bound to the URL and the options it was created with.  The session
    identifier is a value of any type; the factory cannot look into it. *)
Record Auth (Id : Type) := mkAuth { sessionId : Id }.
Record Options (Id : Type) := mkOptions {
  reconnection : bool;
  autoConnect : bool;
  auth : Auth Id
}.
Record Socket (Id : Type) := io { uri : Str; opts : Options Id }.

Arguments mkAuth {Id}.
Arguments sessionId {Id}.
Arguments mkOptions {Id}.
Arguments reconnection {Id}.
Arguments autoConnect {Id}.
Arguments auth {Id}.
Arguments io {Id}.
Arguments uri {Id}.
Arguments opts {Id}.

Definition initSocket {Id : Type} (env : Env) (sessionId : Id) : Socket Id :=
  let socket :=
    io (serverURL env)
       {| reconnection := true;
          autoConnect := false;
          auth := {| sessionId := sessionId |} |} in
  socket.

End SocketClient.

(* ====================================================================== *)
(** * HTTP and Socket.io server ([src/server/utils/initializeClient.js])   *)
(* ====================================================================== *)

Module Server.
Import JS.

(** The array literal both CORS checks build, after [.filter(Boolean)]. *)
Definition allowedOrigins (env : Env) : list Str :=
  filterBoolean
    [ Some "http://localhost:3000"%string;
      Some "https://minesweeper-test.vercel.app"%string;
      Some "https://www.minesweepercoop.com"%string;
      env !! "FRONTEND_URL"%string ].

(** ** Express middleware *)

Record Request := mkRequest { headers_origin : Str; method : string }.

Inductive Handled := sendStatus (code : Z) | next.

(** The middleware's effect on the response: the headers it sets, in
    order, and how it ends. *)
Definition corsMiddleware (env : Env) (req : Request)
  : list (string * string) * Handled :=
  let allowedOrigins := allowedOrigins env in
  let origin := headers_origin req in
  let h1 :=
    if includes allowedOrigins origin
    then [("Access-Control-Allow-Origin"%string, default ""%string origin)]
    else [] in
  let h :=
    h1 ++ [ ("Access-Control-Allow-Methods", "GET, POST, OPTIONS");
            ("Access-Control-Allow-Headers", "Content-Type");
            ("Access-Control-Allow-Credentials", "true") ]%string in
  if String.eqb (method req) "OPTIONS" then (h, sendStatus 200) else (h, next).

(** ** Socket.io options *)

(** [cors.origin]: the function Socket.io calls with the request's
    origin and a callback [(err, allow)]. *)
Definition corsOrigin {R : Type} (env : Env) (origin : Str)
    (callback : option string -> bool -> R) : R :=
  let allowedOrigins := allowedOrigins env in
  if negb (truthy origin) then callback None true
  else if includes allowedOrigins origin then callback None true
  else callback None false.

Record ConnectionStateRecovery := mkRecovery {
  maxDisconnectionDuration : Z;
  skipMiddlewares : bool
}.

Record Cors := mkCors {
  origin : forall R : Type, Str -> (option string -> bool -> R) -> R;
  methods : list string;
  credentials : bool;
  allowedHeaders : list string
}.

Record ServerOptions := mkServerOptions {
  path : string;
  cors : Cors;
  transports : list string;
  allowEIO3 : bool;
  connectionStateRecovery : ConnectionStateRecovery
}.

(** The options object of [new Server(server, {...})]. *)
Definition ioOptions (env : Env) : ServerOptions :=
  {| path := "/socket.io";
     cors :=
       {| origin := fun R => @corsOrigin R env;
          methods := ["GET"; "POST"]%string;
          credentials := true;
          allowedHeaders := ["Content-Type"%string] |};
     transports := ["websocket"; "polling"]%string;
     allowEIO3 := true;
     connectionStateRecovery :=
       {| maxDisconnectionDuration := 2 * 60 * 1000;
          skipMiddlewares := true |} |}.

(** The answer the transport gets for an origin: the arguments the
    callback is invoked with. *)
Definition decision (env : Env) (o : Str) : option string * bool :=
  origin (cors (ioOptions env)) _ o (fun err allow => (err, allow)).

(** The specification's predicate, in its words: an origin is allowed
    when it is absent or on the allow-list. *)
Definition isAllowedOrigin (allowList : list Str) (o : Str) : bool :=
  match o with
  | None => true
  | Some s => String.eqb s "" || bool_decide (Some s ∈ allowList)
  end.

End Server.

(* ====================================================================== *)
(** * The session-store client ([initializeRedisClient])                   *)
(* ====================================================================== *)

Module Redis.
Import JS.

(** A thrown or rejected value. *)
Definition Err := string.

(** How a promise ends: fulfilled, rejected, or not settled at all. *)
Inductive Settlement (A : Type) :=
  | Fulfilled (a : A)
  | Rejected (err : Err)
  | Pending.
Arguments Fulfilled {A}.
Arguments Rejected {A}.
Arguments Pending {A}.

(** The argument of [redis.createClient]: [{url}], or
    [{username, password, socket: {host, port}}]. *)
Record SocketOptions := mkSocketOptions { host : Str; port : Str }.

Inductive ClientOptions :=
  | fromUrl (url : Str)
  | fromParts (username : string) (password : Str) (socket : SocketOptions).

Section WithLibrary.

(** The client object the library hands out, and what the library and
    the store behind it do: [createClient] returns a client or throws;
    [connect] and the [n]-th [ping] of a client return promises. *)
Variable Client : Type.

Record Library := mkLibrary {
  createClient : ClientOptions -> Client + Err;
  connect : Client -> Settlement unit;
  ping : Client -> nat -> Settlement string
}.

Variable redis : Library.

(** The function handed to [setInterval], by what it closes over. *)
Inductive Callback := pingProbe (client : Client).

(** What the code does to the outside, in order. *)
Inductive Event :=
  | console_log (msg : string)
  | console_error (msg : string) (err : Err)
  | setInterval (cb : Callback) (delay : Z)
  | client_connect (client : Client)
  | client_ping (client : Client).

Definition Trace := list Event.

(** An [async] computation: it extends the trace and ends as a promise
    does.  A [throw] inside it is a rejection. *)
Definition Async (A : Type) : Type := Trace -> Settlement A * Trace.

Definition ret {A} (a : A) : Async A := fun t => (Fulfilled a, t).

Definition throw {A} (e : Err) : Async A := fun t => (Rejected e, t).

Definition bind {A B} (m : Async A) (k : A -> Async B) : Async B :=
  fun t =>
    match m t with
    | (Fulfilled a, t') => k a t'
    | (Rejected e, t') => (Rejected e, t')
    | (Pending, t') => (Pending, t')
    end.

(** [try { body } catch (e) { handler }], and equally
    [promise.catch(handler)]. *)
Definition tryCatch {A} (body : Async A) (handler : Err -> Async A) : Async A :=
  fun t =>
    match body t with
    | (Rejected e, t') => handler e t'
    | other => other
    end.

Definition emit (ev : Event) : Async unit := fun t => (Fulfilled tt, t ++ [ev]).

(** [await p] *)
Definition await {A} (p : Settlement A) : Async A := fun t => (p, t).

(** A call that returns or throws. *)
Definition call {A} (r : A + Err) : Async A :=
  match r with inl a => ret a | inr e => throw e end.

Notation "x <- m ;; k" := (bind m (fun x => k))
  (at level 100, m at next level, right associativity).
Notation "m ;;; k" := (bind m (fun _ => k))
  (at level 100, right associativity).

(** The body of the interval callback; [n] counts its runs. *)
Definition runCallback (cb : Callback) (n : nat) : Async unit :=
  match cb with
  | pingProbe client =>
      tryCatch
        (emit (client_ping client) ;;;
         _ <- await (ping redis client n) ;;
         ret tt)
        (fun err => emit (console_error "❌ Redis ping failed:" err))
  end.

Definition initializeRedisClient (env : Env) : Async Client :=
  tryCatch
    (client <-
       (if truthy (env !! "REDIS_URL"%string)
        then call (createClient redis (fromUrl (env !! "REDIS_URL"%string)))
        else call (createClient redis
                     (fromParts "default"
                        (env !! "DB_PASS"%string)
                        {| host := env !! "HOST"%string;
                           port := env !! "REDIS_PORT"%string |}))) ;;
     emit (setInterval (pingProbe client) 60000) ;;;
     tryCatch
       (emit (client_connect client) ;;;
        await (connect redis client) ;;;
        emit (console_log "✅ Connected to Redis"))
       (fun err => emit (console_error "❌ Redis connection error:" err)) ;;;
     ret client)
    (fun error =>
       emit (console_error "Failed to connect to Redis:" error) ;;;
       throw error).

(** ** The timer

    A registered interval runs its callback once per period for as long
    as the process lives.  The promise an [async] callback returns is
    dropped by the timer; were it to reject, the rejection would be
    unhandled, which ends a Node process. *)
Inductive Process := Alive | Crashed (err : Err).

Fixpoint runInterval (cb : Callback) (from periods : nat) (t : Trace)
  : Process * Trace :=
  match periods with
  | O => (Alive, t)
  | S periods' =>
      match runCallback cb from t with
      | (Rejected e, t') => (Crashed e, t')
      | (_, t') => runInterval cb (S from) periods' t'
      end
  end.

(** The intervals a trace registered, and the pings it sent. *)
Definition intervals (t : Trace) : list (Callback * Z) :=
  omap (fun ev => match ev with setInterval cb d => Some (cb, d) | _ => None end) t.

Definition pingsSent (t : Trace) : nat :=
  length (omap (fun ev => match ev with client_ping c => Some c | _ => None end) t).

End WithLibrary.

Arguments mkLibrary {Client}.
Arguments createClient {Client}.
Arguments connect {Client}.
Arguments ping {Client}.
Arguments pingProbe {Client}.
Arguments console_log {Client}.
Arguments console_error {Client}.
Arguments setInterval {Client}.
Arguments client_connect {Client}.
Arguments client_ping {Client}.
Arguments runCallback {Client}.
Arguments initializeRedisClient {Client}.
Arguments runInterval {Client}.
Arguments intervals {Client}.
Arguments pingsSent {Client}.

End Redis.

(* ====================================================================== *)
(** * The Timer component (first part of [src/components/Timer.tsx])       *)
(* ====================================================================== *)

Module Timer.
Import Store.

(** [String.prototype.padStart]: [padString] repeated, and cut, to fill
    [s] up to [targetLength] from the left; an [s] that is long enough,
    or an empty [padString], gives [s] back. *)
Fixpoint padding (n : nat) (padString rest : string) : string :=
  match n with
  | O => ""
  | S n' =>
      match rest with
      | String ch rest' => String ch (padding n' padString rest')
      | EmptyString =>
          match padString with
          | String ch rest' => String ch (padding n' padString rest')
          | EmptyString => ""
          end
      end
  end.

Definition padStart (targetLength : nat) (padString s : string) : string :=
  match padString with
  | EmptyString => s
  | _ => padding (targetLength - String.length s) padString padString +:+ s
  end.

(** [Number.prototype.toString] of an integer: its decimal digits, with
    a minus sign below zero. *)
Definition toString (n : Z) : string := pretty n.

(** [formatTime]: [Math.floor(seconds / 60)] and [seconds % 60] (the
    remainder takes the sign of [seconds]), each padded to two places. *)
Definition formatTime (seconds : Z) : string :=
  let mins := seconds / 60 in
  let secs := Z.rem seconds 60 in
  padStart 2 "0" (toString mins) +:+ ":" +:+ padStart 2 "0" (toString secs).




End Timer.

(* ====================================================================== *)
(** * The Grid component: timer effects and what is shown                  *)
(* ====================================================================== *)

Module GridView.
Import Store Grid.

(** ** The two timer effects *)

(** [board.some(row => row.some(cell => cell.isOpen))] *)
Definition hasOpenCell (b : list (list Cell)) : bool :=
  existsb (fun row => existsb (fun cell => isOpen cell) row) b.

(** [board.length > 0 && board.every(row => row.every(cell => !cell.isOpen))] *)
Definition allClosed (b : list (list Cell)) : bool :=
  (0 <? length b)%nat
  && forallb (fun row => forallb (fun cell => negb (isOpen cell)) row) b.

(** Start the timer when a cell is open and the game is on; stop it when
    the game is over or won. *)
Definition timerEffect : Effect :=
  fun w =>
    let s := store w in
    let hasOpenCell := hasOpenCell (s board) in
    ((if hasOpenCell && negb (s gameOver) && negb (s gameWon)
      then onStore (setTimerRunning true) else skip) ;;
     (if s gameOver || s gameWon
      then onStore (setTimerRunning false) else skip)) w.

(** Reset the timer when the board has rows and no open cell. *)
Definition resetTimerEffect : Effect :=
  fun w =>
    let s := store w in
    let allClosed := allClosed (s board) in
    if allClosed then onStore resetTimer w else w.

(** The component's three effects in the order they are declared, as
    they run after the first render. *)
Definition mountEffects : Effect :=
  chordingEffect ;; timerEffect ;; resetTimerEffect.

(** ** What the component shows

    [{a && b && <element/>}] shows the element exactly when every
    operand is truthy.  The desktop and the mobile layout test the same
    conditions. *)

Definition isPvp (s : MinesweeperState) : bool := String.eqb (s mode) "pvp".
Definition isCoop (s : MinesweeperState) : bool := String.eqb (s mode) "co-op".

(** "Waiting for opponent..." *)
Definition showsWaitingForOpponent (s : MinesweeperState) : bool :=
  isPvp s && negb (s pvpRoomReady) && negb (s pvpStarted).

(** The host's "Start Game" button. *)
Definition showsStartGame (s : MinesweeperState) : bool :=
  isPvp s && s pvpRoomReady && negb (s pvpStarted) && s pvpIsHost.

(** "Waiting for host to start..." *)
Definition showsWaitingForHost (s : MinesweeperState) : bool :=
  isPvp s && s pvpRoomReady && negb (s pvpStarted) && negb (s pvpIsHost).

(** The badge of a won game, and its text. *)
Definition showsGameWon (s : MinesweeperState) : bool := s gameWon.

Definition gameWonText (s : MinesweeperState) : string :=
  if isPvp s && JS.truthy (s pvpWinner)
  then default "" (s pvpWinner) +:+ " WON!"
  else "GAME WON!".

(** "GAME LOST!" and "HIT A MINE!" *)
Definition showsGameLost (s : MinesweeperState) : bool :=
  s gameOver && isCoop s.

Definition showsHitAMine (s : MinesweeperState) : bool :=
  s gameOver && isPvp s && negb (s gameWon).

(** The buttons "Reset Board", "Reset My Board" and "Rematch", and the
    line "Waiting for host to start rematch...". *)
Definition showsResetBoard (s : MinesweeperState) : bool := isCoop s.

Definition showsResetMyBoard (s : MinesweeperState) : bool :=
  isPvp s && s gameOver && negb (s gameWon) && negb (JS.truthy (s pvpWinner)).

Definition showsRematch (s : MinesweeperState) : bool :=
  isPvp s && JS.truthy (s pvpWinner) && s pvpIsHost.

Definition showsWaitingForRematch (s : MinesweeperState) : bool :=
  isPvp s && JS.truthy (s pvpWinner) && negb (s pvpIsHost).

(** The progress bars, and the score table. *)
Definition showsProgress (s : MinesweeperState) : bool := isPvp s && s pvpStarted.
Definition showsScoreTable (s : MinesweeperState) : bool := negb (isPvp s).

(** The colour of the opponent's bar and the text of the opponent's
    status, by the chain of conditionals. *)
Definition opponentBarColour (s : MinesweeperState) : string :=
  match s pvpOpponentStatus with
  | failed => "bg-red-500"
  | won => "bg-green-500"
  | _ => "bg-orange-500"
  end.

Definition opponentStatusText (s : MinesweeperState) : string :=
  match s pvpOpponentStatus with
  | won => "✓ Won"
  | failed => "✗ Hit a mine"
  | disconnected => "✗ Disconnected"
  | playing => "▶ Playing"
  | waiting => "⏳ Waiting"
  end.

End GridView.

(* ====================================================================== *)
(** * Facts about the store                                                *)
(* ====================================================================== *)

Module StoreFacts.
Import Store.

Lemma assign_same (k : Field) (v : fieldType k) (s : MinesweeperState) :
  assign (k ::= v) s k = v.
Proof.
  unfold assign; simpl.
  destruct (decide (k = k)) as [same|diff]; [|done].
  by rewrite (proof_irrel same eq_refl).
Qed.

Lemma assign_other (e : Entry) (s : MinesweeperState) (f : Field) :
  key e ≠ f -> assign e s f = s f.
Proof.
  intros Hne. unfold assign.
  destruct (decide (key e = f)); [done|reflexivity].
Qed.

(** [set] leaves alone every key its literal does not mention. *)
Lemma set_frame (p : Partial) (s : MinesweeperState) (f : Field) :
  f ∉ keys p -> set p s f = s f.
Proof.
  unfold set. revert s.
  induction p as [|e p IH]; intros s Hf; [reflexivity|].
  simpl in *. apply not_elem_of_cons in Hf as [Hne Hf].
  rewrite IH by done. apply assign_other. congruence.
Qed.

(** The last entry of a literal decides its key. *)
Lemma set_last (p : Partial) (k : Field) (v : fieldType k) (s : MinesweeperState) :
  set (p ++ [k ::= v]) s k = v.
Proof. unfold set. rewrite foldl_app. simpl. apply assign_same. Qed.

Lemma set_snoc_other (p : Partial) (e : Entry) (s : MinesweeperState) (f : Field) :
  key e ≠ f -> set (p ++ [e]) s f = set p s f.
Proof.
  intros Hne. unfold set. rewrite foldl_app. simpl. by apply assign_other.
Qed.

(** Merging a state's own spread into it changes nothing. *)
Lemma set_spread (s : MinesweeperState) (f : Field) :
  set (spread s) s f = s f.
Proof. destruct f; reflexivity. Qed.

(** The board [setCell] stores. *)
Definition replaceAt (row col : Z) (newCell : Cell) (b : list (list Cell))
  : list (list Cell) :=
  imap (fun rowIndex r =>
    imap (fun colIndex c =>
      if (Z.of_nat rowIndex =? row) && (Z.of_nat colIndex =? col)
      then newCell else c) r) b.

Lemma setCell_board row col newCell s :
  setCell row col newCell s board = replaceAt row col newCell (s board).
Proof. unfold setCell, setWith. by rewrite set_last. Qed.

Lemma setCell_other_fields row col newCell s f :
  f ≠ board -> setCell row col newCell s f = s f.
Proof.
  intros Hne. unfold setCell, setWith.
  rewrite set_snoc_other by (simpl; congruence).
  apply set_spread.
Qed.

(** [board[i][j]], when there is such an element. *)
Definition cell (b : list (list Cell)) (i j : nat) : option Cell :=
  b !! i ≫= fun row => row !! j.

(** [board[row][col]] for numbers that need not be indices. *)
Definition cellAt (b : list (list Cell)) (row col : Z) : option Cell :=
  if (row <? 0) || (col <? 0) then None
  else cell b (Z.to_nat row) (Z.to_nat col).

Lemma replaceAt_cell row col newCell b i j :
  cell (replaceAt row col newCell b) i j =
  (fun old => if (Z.of_nat i =? row) && (Z.of_nat j =? col) then newCell else old)
    <$> cell b i j.
Proof.
  unfold cell, replaceAt. rewrite list_lookup_imap.
  destruct (b !! i) as [rw|]; simpl; [|reflexivity].
  by rewrite list_lookup_imap.
Qed.

Lemma replaceAt_row_noop row col newCell (rw : list Cell) i :
  (forall j, rw !! j <> None -> (Z.of_nat i =? row) && (Z.of_nat j =? col) = false) ->
  imap (fun colIndex c =>
          if (Z.of_nat i =? row) && (Z.of_nat colIndex =? col)
          then newCell else c) rw = rw.
Proof.
  intros Hoff. apply list_eq. intros j. rewrite list_lookup_imap.
  destruct (rw !! j) as [x|] eqn:Hj; simpl; [|reflexivity].
  rewrite Hoff; [reflexivity|]. by rewrite Hj.
Qed.

Lemma replaceAt_outside row col newCell b :
  cellAt b row col = None -> replaceAt row col newCell b = b.
Proof.
  intros Hout. unfold replaceAt. apply list_eq. intros i.
  rewrite list_lookup_imap.
  destruct (b !! i) as [rw|] eqn:Hi; simpl; [|reflexivity].
  f_equal. apply replaceAt_row_noop. intros j Hj.
  apply andb_false_iff.
  destruct (Z.eqb_spec (Z.of_nat i) row) as [<-|]; [|by left].
  destruct (Z.eqb_spec (Z.of_nat j) col) as [<-|]; [|by right].
  exfalso. unfold cellAt, cell in Hout.
  replace ((Z.of_nat i <? 0) || (Z.of_nat j <? 0)) with false in Hout
    by (symmetry; apply orb_false_iff; split; apply Z.ltb_ge; lia).
  rewrite !Nat2Z.id, Hi in Hout. simpl in Hout. done.
Qed.

(** C9. [setCell(row, col, newCell)] changes at most the one cell at
    [(row, col)]: the cell at any other pair of indices is what it was,
    present or absent; every key of the store other than [board] keeps
    its value; and when the board has no cell at [(row, col)] the board
    is left exactly as it was. *)
Theorem setCell_frame (row col : Z) (newCell : Cell) (s : MinesweeperState) :
  (forall i j : nat,
      (Z.of_nat i, Z.of_nat j) <> (row, col) ->
      cell (setCell row col newCell s board) i j = cell (s board) i j)
  /\ (forall f : Field, f <> board -> setCell row col newCell s f = s f)
  /\ (cellAt (s board) row col = None ->
      setCell row col newCell s board = s board).
Proof.
  split; [|split].
  - intros i j Hne. rewrite setCell_board, replaceAt_cell.
    destruct (cell (s board) i j) as [old|]; simpl; [|reflexivity].
    destruct (Z.eqb_spec (Z.of_nat i) row) as [Hi|]; simpl; [|reflexivity].
    destruct (Z.eqb_spec (Z.of_nat j) col) as [Hj|]; [|reflexivity].
    exfalso. apply Hne. congruence.
  - apply setCell_other_fields.
  - intros Hout. rewrite setCell_board. by apply replaceAt_outside.
Qed.

(** Inside the board, the addressed cell becomes [newCell]. *)
Lemma setCell_hit (i j : nat) (newCell old : Cell) (s : MinesweeperState) :
  cell (s board) i j = Some old ->
  cell (setCell (Z.of_nat i) (Z.of_nat j) newCell s board) i j = Some newCell.
Proof.
  intros Hold. rewrite setCell_board, replaceAt_cell, Hold. simpl.
  by rewrite !Z.eqb_refl.
Qed.

(** The keys [resetPvpState] writes. *)
Definition resetKeys : list Field :=
  [ pvpStarted; pvpPlayerIndex; pvpOpponentName; pvpOpponentStatus;
    pvpWinner; pvpRoomReady; pvpIsHost; pvpOpponentProgress;
    pvpTotalSafeCells; gameOver; gameWon ].

Lemma resetPvpState_written (s : MinesweeperState) (f : Field) :
  f ∈ resetKeys -> resetPvpState s f = initialState f.
Proof.
  unfold resetKeys. rewrite !elem_of_cons, elem_of_nil.
  intros H. repeat (destruct H as [->|H]; [reflexivity|]). done.
Qed.

Lemma resetPvpState_frame (s : MinesweeperState) (f : Field) :
  f ∉ resetKeys -> resetPvpState s f = s f.
Proof. intros H. by apply set_frame. Qed.

(** C8. [resetPvpState] puts the nine PVP keys and [gameOver], [gameWon]
    back to the values of the initial state, and leaves [room], [name],
    [playerStatsInRoom], [board] and the five board-configuration keys
    ([numRows], [numCols], [numMines], [difficulty], [mode]) as they
    are. *)
Theorem resetPvpState_resets_game_keeps_room (s : MinesweeperState) :
  let s' := resetPvpState s in
  (s' pvpStarted = initialState pvpStarted
   /\ s' pvpPlayerIndex = initialState pvpPlayerIndex
   /\ s' pvpOpponentName = initialState pvpOpponentName
   /\ s' pvpOpponentStatus = initialState pvpOpponentStatus
   /\ s' pvpWinner = initialState pvpWinner
   /\ s' pvpRoomReady = initialState pvpRoomReady
   /\ s' pvpIsHost = initialState pvpIsHost
   /\ s' pvpOpponentProgress = initialState pvpOpponentProgress
   /\ s' pvpTotalSafeCells = initialState pvpTotalSafeCells
   /\ s' gameOver = initialState gameOver
   /\ s' gameWon = initialState gameWon)
  /\ (s' room = s room
      /\ s' name = s name
      /\ s' playerStatsInRoom = s playerStatsInRoom
      /\ s' board = s board
      /\ s' numRows = s numRows
      /\ s' numCols = s numCols
      /\ s' numMines = s numMines
      /\ s' difficulty = s difficulty
      /\ s' mode = s mode).
Proof.
  intros s'. split.
  - repeat split; apply resetPvpState_written; unfold resetKeys; set_solver.
  - repeat split; apply resetPvpState_frame; unfold resetKeys; set_solver.
Qed.

End StoreFacts.

(* ====================================================================== *)
(** * Facts about the Grid component                                       *)
(* ====================================================================== *)

Module GridFacts.
Import Store Grid.

(** ** Index loops are folds *)

Lemma foldl_ext_in {A B} (f g : B -> A -> B) (l : list A) (b : B) :
  (forall acc x, x ∈ l -> f acc x = g acc x) -> foldl f b l = foldl g b l.
Proof.
  revert b. induction l as [|x l IH]; intros b Hfg; [reflexivity|].
  simpl. rewrite Hfg by left. apply IH. intros acc y Hy. apply Hfg. by right.
Qed.

(** A loop over the indices of [l] that only reads [l[i]] is a fold
    over the elements of [l]. *)
Lemma forLoop_elements {A B} `{Inhabited A} (g : A -> B -> B) (l : list A) (init : B) :
  forLoop (length l) (fun i acc => g (l !!! i) acc) init
  = foldl (fun acc x => g x acc) init l.
Proof.
  unfold forLoop. induction l as [|x l IH] using rev_ind; [reflexivity|].
  rewrite length_app, seq_app, !foldl_app. simpl.
  replace ((l ++ [x]) !!! length l) with x
    by (symmetry; apply list_lookup_total_middle; reflexivity).
  f_equal. rewrite <- IH. apply foldl_ext_in.
  intros acc i Hi. apply elem_of_seq in Hi.
  by rewrite lookup_total_app_l by lia.
Qed.

(** The test of [ownProgress]'s inner [if]. *)
Definition revealed (x : Cell) : bool := isOpen x && negb (isMine x).

(** The claim's count: the cells of the board, row after row, that are
    open and not mines. *)
Definition openSafeCells (b : list (list Cell)) : nat :=
  length (List.filter revealed (concat b)).

Lemma count_row (rw : list Cell) (acc : Z) :
  foldl (fun n x => if revealed x then n + 1 else n) acc rw
  = acc + Z.of_nat (length (List.filter revealed rw)).
Proof.
  revert acc. induction rw as [|x rw IH]; intros acc; simpl; [lia|].
  rewrite IH. destruct (revealed x); simpl; lia.
Qed.

Lemma count_rows (b : list (list Cell)) (acc : Z) :
  foldl (fun n rw => foldl (fun n x => if revealed x then n + 1 else n) n rw) acc b
  = acc + Z.of_nat (openSafeCells b).
Proof.
  unfold openSafeCells. revert acc.
  induction b as [|rw b IH]; intros acc; simpl; [lia|].
  rewrite IH, count_row, List.filter_app, length_app. lia.
Qed.

(** C2. For every board, [ownProgress] is the number of cells with
    [isOpen = true] and [isMine = false]; a cell that is an open mine or
    is closed adds nothing. *)
Theorem ownProgress_counts_open_safe (s : MinesweeperState) :
  ownProgress s
  = Z.of_nat (length (List.filter (fun x => isOpen x && negb (isMine x))
                                  (concat (s board)))).
Proof.
  unfold ownProgress. cbv zeta.
  rewrite (forLoop_elements
             (fun rw n => forLoop (length rw)
                            (fun j n => if isOpen (rw !!! j) && negb (isMine (rw !!! j))
                                        then n + 1 else n) n)).
  erewrite foldl_ext_in.
  - rewrite count_rows. apply Z.add_0_l.
  - intros acc rw _. simpl.
    apply (forLoop_elements (fun x n => if revealed x then n + 1 else n)).
Qed.

(** Adding one cell to the end of the last row moves the count by one
    exactly when that cell is open and safe. *)
Lemma openSafeCells_snoc (b : list (list Cell)) (rw : list Cell) (x : Cell) :
  openSafeCells (b ++ [rw ++ [x]])
  = (openSafeCells (b ++ [rw]) + (if isOpen x && negb (isMine x) then 1 else 0))%nat.
Proof.
  unfold openSafeCells.
  rewrite !concat_app, !List.filter_app, !length_app. simpl.
  rewrite !app_nil_r, List.filter_app, length_app. simpl.
  fold (revealed x). destruct (revealed x); simpl; lia.
Qed.

(** ** Progress percentages *)

(** [Math_round] on the values the progress bars meet: ties go up, also
    below zero, and the quotient is the binary64 one ([29/200*100] is
    just under [14.5]). *)
Example Math_round_ties :
  Number.Math_round 12.5 = 13%float
  /\ Number.Math_round (-2.5) = (-2)%float
  /\ Number.Math_round (29 / 200 * 100) = 14%float
  /\ Number.Math_round (1 / 8 * 100) = 13%float
  /\ Number.Math_round nan = nan
  /\ Number.Math_round infinity = infinity.
Proof. repeat split; vm_compute; reflexivity. Qed.

(** C10. The two percentages never divide by a number that is [<= 0]:
    when [pvpTotalSafeCells <= 0] each is exactly [0] and no division is
    performed; otherwise each is [Math.round((progress /
    pvpTotalSafeCells) * 100)] with the one division that expression
    contains; and no division either of them performs has a divisor that
    is [<= 0]. *)
Theorem progress_percent_division_safe (s : MinesweeperState) :
  let total := s pvpTotalSafeCells in
  let own := Number.ofZ (ownProgress s) in
  let opponent := s pvpOpponentProgress in
  ((total <=? 0)%float = true ->
     ownProgressPercent s = (0%float, [])
     /\ opponentProgressPercent s = (0%float, []))
  /\ ((total <=? 0)%float = false ->
     ownProgressPercent s
       = (Number.Math_round (own / total * 100)%float, [(own, total)])
     /\ opponentProgressPercent s
       = (Number.Math_round (opponent / total * 100)%float, [(opponent, total)]))
  /\ Forall (fun d => (snd d <=? 0)%float = false)
        (Number.divisions (ownProgressPercent s)
         ++ Number.divisions (opponentProgressPercent s)).
Proof.
  intros total own opponent.
  unfold ownProgressPercent, opponentProgressPercent.
  fold total own opponent.
  destruct (total <=? 0)%float eqn:Hguard; simpl.
  - repeat split; try discriminate. constructor.
  - repeat split; try discriminate.
    repeat constructor; exact Hguard.
Qed.

(** ** The chording effect *)

(** Unfold the combinators of [Effect] and split on the two buttons. *)
Ltac run_effect w :=
  unfold chordingEffect, andThen, onStore, invoke, skip;
  destruct (store w leftClick), (store w rightClick); simpl.

Lemma issued_app (e : Effect) (w : World) (new : list PropCall) :
  calls (e w) = calls w ++ new -> issued e w = new.
Proof. intros Heq. unfold issued. rewrite Heq. apply drop_app_length. Qed.

(** The effect writes no key of the store but [bothPressed]. *)
Lemma chordingEffect_store_frame (w : World) (f : Field) :
  f <> bothPressed -> store (chordingEffect w) f = store w f.
Proof.
  intros Hne. run_effect w;
    try destruct ((store w r >=? 0) && (store w c >=? 0)); simpl;
    try reflexivity;
    apply StoreFacts.set_frame; simpl;
    (apply not_elem_of_cons; split; [done | apply not_elem_of_nil]).
Qed.

(** The calls one run of the effect makes, in closed form. *)
Lemma chordingEffect_calls (w : World) :
  calls (chordingEffect w)
  = calls w ++
    (if store w leftClick && store w rightClick
        && (store w r >=? 0) && (store w c >=? 0)
     then [chordCell (store w r) (store w c)] else []).
Proof.
  run_effect w;
    try destruct (store w r >=? 0); simpl;
    try destruct (store w c >=? 0); simpl;
    by rewrite ?app_nil_r.
Qed.

(** The latch after one run of the effect. *)
Lemma chordingEffect_latch (w : World) :
  store (chordingEffect w) bothPressed
  = if store w leftClick && store w rightClick then true
    else if negb (store w leftClick) && negb (store w rightClick) then false
    else store w bothPressed.
Proof.
  run_effect w;
    try destruct ((store w r >=? 0) && (store w c >=? 0)); reflexivity.
Qed.

(** C1. One run of the chording-detection effect calls [chordCell] only
    when [leftClick] and [rightClick] are both true and [r >= 0] and
    [c >= 0], and then exactly once, at [(r, c)], and calls nothing else
    (no [openCell] in particular); with exactly one button pressed it
    calls nothing and leaves [bothPressed] alone; and [bothPressed] goes
    from true to false only in a run where both buttons are released. *)
Theorem chord_is_one_call_on_both_buttons (w : World) :
  let s := store w in
  let w' := chordingEffect w in
  (forall p, p ∈ issued chordingEffect w ->
     p = chordCell (s r) (s c)
     /\ s leftClick = true /\ s rightClick = true /\ 0 <= s r /\ 0 <= s c)
  /\ (length (issued chordingEffect w) <= 1)%nat
  /\ calls w' = calls w ++ issued chordingEffect w
  /\ (s leftClick = true -> s rightClick = true -> 0 <= s r -> 0 <= s c ->
      issued chordingEffect w = [chordCell (s r) (s c)]
      /\ store w' bothPressed = true)
  /\ (s leftClick <> s rightClick ->
      issued chordingEffect w = [] /\ store w' bothPressed = s bothPressed)
  /\ (s bothPressed = true -> store w' bothPressed = false ->
      s leftClick = false /\ s rightClick = false).
Proof.
  intros s w'. subst w'.
  pose proof (chordingEffect_calls w) as Hcalls.
  pose proof (chordingEffect_latch w) as Hlatch.
  rewrite (issued_app _ _ _ Hcalls), Hcalls, Hlatch. fold s.
  destruct (s leftClick) eqn:Hl, (s rightClick) eqn:Hr; simpl;
    [ destruct (Z.geb_spec (s r) 0) as [Hr0|Hr0],
               (Z.geb_spec (s c) 0) as [Hc0|Hc0]; simpl | | | ];
    split_and!; try done; try lia; try congruence;
    try (intros p Hp; apply elem_of_nil in Hp; done).
  intros p Hp. apply list_elem_of_singleton in Hp. split_and!; try done; lia.
Qed.

(** ** Sessions *)

(** A call of [chordCell] at coordinates that are not negative. *)
Definition validChord (p : PropCall) : bool :=
  match p with
  | chordCell row col => (row >=? 0) && (col >=? 0)
  | _ => false
  end.

Lemma chordingEffect_issues_valid (w : World) :
  exists new, calls (chordingEffect w) = calls w ++ new
              /\ Forall (fun p => validChord p = true) new.
Proof.
  eexists. split; [apply chordingEffect_calls|].
  destruct (store w leftClick), (store w rightClick); simpl; try constructor;
    destruct (store w r >=? 0) eqn:Hr; simpl; try constructor;
    destruct (store w c >=? 0) eqn:Hc; simpl; repeat constructor.
  simpl. by rewrite Hr, Hc.
Qed.

(** X13. Whatever is done to the store between renders, everything a
    session calls is a [chordCell] at coordinates that are not negative:
    the effect never opens or flags a cell. *)
Lemma session_issues_only_chords updates previous (w : World) :
  exists new, calls (session updates previous w) = calls w ++ new
              /\ Forall (fun p => validChord p = true) new.
Proof.
  revert previous w.
  induction updates as [|update rest IH]; intros previous w.
  - exists []. simpl. by rewrite app_nil_r.
  - destruct (IH (Some (deps (store (onStore update w))))
                 (afterRender previous (onStore update w))) as (new2 & Heq & Hnew2).
    change (session (update :: rest) previous w)
      with (session rest (Some (deps (store (onStore update w))))
              (afterRender previous (onStore update w))).
    rewrite Heq. unfold afterRender. case_decide.
    + by exists new2.
    + destruct (chordingEffect_issues_valid (onStore update w)) as (new1 & -> & Hnew1).
      exists (new1 ++ new2). simpl. rewrite app_assoc. split; [reflexivity|].
      by apply Forall_app.
Qed.

(** Pressing left, then right, over cell [(2, 3)], then releasing both:
    one chord, and the latch is down again at the end. *)
Example session_press_both :
  let w := session [ setCoord 2 3; setLeftClick true; setRightClick true;
                     setLeftClick false; setRightClick false ]
                   None (mkWorld initialState []) in
  calls w = [chordCell 2 3] /\ store w bothPressed = false.
Proof. split; reflexivity. Qed.

(** ** Sample states *)

Definition sampleBoard : list (list Cell) :=
  [ [ mkCell false true false 1; mkCell true false true 0 ];
    [ mkCell true true false 0; mkCell false false false 2 ] ].

(** A PVP game under way: one safe cell open out of 200, the opponent
    at 29. *)
Definition sampleState : MinesweeperState :=
  setPvpTotalSafeCells 200 (setPvpOpponentProgress 29 (setBoard sampleBoard initialState)).

(** Both buttons down over cell [(2, 3)]; the left button alone. *)
Definition bothDown : World :=
  mkWorld (setCoord 2 3 (setRightClick true (setLeftClick true initialState))) [].

Definition leftDown : World :=
  mkWorld (setBothPressed true (setCoord 2 3 (setLeftClick true initialState))) [].

Lemma setCell_frame_witness :
  let x := mkCell false true false 3 in
  StoreFacts.cell (setCell 0 1 x sampleState board) 1 1
    = StoreFacts.cell (sampleState board) 1 1
  /\ setCell 0 1 x sampleState room = sampleState room
  /\ setCell 7 0 x sampleState board = sampleState board.
Proof.
  intros x.
  destruct (StoreFacts.setCell_frame 0 1 x sampleState) as (Hcell & Hkeys & _).
  destruct (StoreFacts.setCell_frame 7 0 x sampleState) as (_ & _ & Hout).
  split; [apply Hcell; discriminate|].
  split; [apply Hkeys; discriminate|].
  apply Hout. reflexivity.
Defined.

Lemma progress_percent_division_safe_witness :
  ownProgressPercent sampleState = (1%float, [(1%float, 200%float)])
  /\ opponentProgressPercent sampleState = (14%float, [(29%float, 200%float)])
  /\ ownProgressPercent initialState = (0%float, []).
Proof.
  destruct (progress_percent_division_safe sampleState) as (_ & Hpos & _).
  destruct (progress_percent_division_safe initialState) as (Hzero & _ & _).
  destruct (Hpos eq_refl) as [Hown Hopp].
  destruct (Hzero eq_refl) as [Hown0 _].
  split; [exact Hown|]. split; [exact Hopp|exact Hown0].
Defined.

Lemma chord_is_one_call_on_both_buttons_witness :
  issued chordingEffect bothDown = [chordCell 2 3]
  /\ store (chordingEffect bothDown) bothPressed = true
  /\ issued chordingEffect leftDown = []
  /\ store (chordingEffect leftDown) bothPressed = true.
Proof.
  destruct (chord_is_one_call_on_both_buttons bothDown) as (_ & _ & _ & Hboth & _).
  destruct (chord_is_one_call_on_both_buttons leftDown) as (_ & _ & _ & _ & Hone & _).
  destruct Hboth as [Hcall Hlatch]; [reflexivity|reflexivity|vm_compute; discriminate|vm_compute; discriminate|].
  destruct Hone as [Hnone Hkept]; [discriminate|].
  split; [exact Hcall|]. split; [exact Hlatch|]. split; [exact Hnone|exact Hkept].
Defined.

End GridFacts.

(* ====================================================================== *)
(** * Facts about the client socket factory                                *)
(* ====================================================================== *)

Module SocketClientFacts.
Import JS SocketClient.

(** C3. For every session identifier, of whatever type, the socket
    [initSocket] returns has that very value as [auth.sessionId], has
    [reconnection] on and [autoConnect] off, and points at [serverURL];
    its options do not depend on the environment. *)
Theorem initSocket_carries_sessionId {Id : Type} (env : Env) (sid : Id) :
  sessionId (auth (opts (initSocket env sid))) = sid
  /\ reconnection (opts (initSocket env sid)) = true
  /\ autoConnect (opts (initSocket env sid)) = false
  /\ uri (initSocket env sid) = serverURL env
  /\ forall env' : Env, opts (initSocket env' sid) = opts (initSocket env sid).
Proof. repeat split. Qed.

(** Two sockets made in one environment are the same only if their
    session identifiers are. *)
Lemma initSocket_inj {Id : Type} (env : Env) (a b : Id) :
  initSocket env a = initSocket env b -> a = b.
Proof. intros Heq. by injection Heq. Qed.

(** The URL: the public variable when it is set and not empty, else by
    [NODE_ENV]. *)
Example serverURL_cases :
  serverURL ∅ = Some "https://nameless-coast-33840-33c3fd45fe2d.herokuapp.com"%string
  /\ serverURL {[ "NODE_ENV"%string := "development"%string ]}
     = Some "http://localhost:3001"%string
  /\ serverURL {[ "NEXT_PUBLIC_SERVER_URL"%string := "https://example.org"%string ]}
     = Some "https://example.org"%string.
Proof. repeat split; vm_compute; reflexivity. Qed.

End SocketClientFacts.

(* ====================================================================== *)
(** * Facts about the server set-up                                        *)
(* ====================================================================== *)

Module ServerFacts.
Import JS Server.

(** One minute, in milliseconds. *)
Definition minute : Z := 60 * 1000.

(** C4. Whatever the environment, the connection-state recovery of the
    Socket.io server keeps a disconnected session for exactly
    [2 * 60 * 1000 = 120000] milliseconds, two minutes. *)
Theorem recovery_window_is_two_minutes (env : Env) :
  maxDisconnectionDuration (connectionStateRecovery (ioOptions env)) = 120000
  /\ maxDisconnectionDuration (connectionStateRecovery (ioOptions env)) = 2 * minute.
Proof. split; reflexivity. Qed.

(** The three origins written into the source. *)
Definition fixedOrigins : list Str :=
  [ Some "http://localhost:3000"%string;
    Some "https://minesweeper-test.vercel.app"%string;
    Some "https://www.minesweepercoop.com"%string ].

Lemma allowedOrigins_members (env : Env) (x : Str) :
  x ∈ allowedOrigins env
  <-> x ∈ fixedOrigins \/ (x = env !! "FRONTEND_URL"%string /\ truthy x = true).
Proof.
  unfold allowedOrigins, filterBoolean, fixedOrigins.
  rewrite list_elem_of_In, List.filter_In, <- list_elem_of_In.
  rewrite !elem_of_cons, elem_of_nil. split.
  - intros [Hx Ht]. destruct_or!; subst; auto 6.
  - intros [Hx|[Hx Ht]]; [|by auto 6].
    destruct_or!; subst; auto 6.
Qed.

(** Everything on the allow-list is a non-empty string. *)
Lemma allowedOrigins_truthy (env : Env) (x : Str) :
  x ∈ allowedOrigins env -> truthy x = true.
Proof.
  unfold allowedOrigins, filterBoolean.
  rewrite list_elem_of_In, List.filter_In. tauto.
Qed.

Lemma decision_isAllowedOrigin (env : Env) (o : Str) :
  decision env o = (None, isAllowedOrigin (allowedOrigins env) o).
Proof.
  unfold decision, ioOptions, corsOrigin, includes, isAllowedOrigin. simpl.
  destruct o as [s|]; simpl; [|reflexivity].
  destruct (String.eqb s ""); simpl; [reflexivity|].
  by repeat case_bool_decide.
Qed.

Lemma isAllowedOrigin_true (allowList : list Str) (o : Str) :
  isAllowedOrigin allowList o = true
  <-> o = None \/ o = Some ""%string \/ o ∈ allowList.
Proof.
  unfold isAllowedOrigin. destruct o as [s|].
  - rewrite orb_true_iff, String.eqb_eq, bool_decide_eq_true. split.
    + intros [->|Hin]; auto.
    + intros [Hnone|[Hempty|Hin]]; [discriminate| |by right].
      left. congruence.
  - split; auto.
Qed.

(** C7. The answer of the transport's CORS callback is a function of the
    origin and the allow-list alone, namely [isAllowedOrigin]: it is
    called back with no error and with [true] exactly when the origin is
    absent ([undefined] or the empty string) or is on the allow-list,
    and with [false] for every other origin; and the allow-list holds the
    three fixed URLs and, when it is set and not empty, [FRONTEND_URL],
    and nothing else. *)
Theorem cors_callback_is_allow_list_membership (env : Env) (o : Str) :
  decision env o = (None, isAllowedOrigin (allowedOrigins env) o)
  /\ (snd (decision env o) = true
      <-> o = None \/ o = Some ""%string \/ o ∈ allowedOrigins env)
  /\ (snd (decision env o) = false
      <-> o <> None /\ o <> Some ""%string /\ o ∉ allowedOrigins env)
  /\ (forall x : Str,
        x ∈ allowedOrigins env
        <-> x ∈ fixedOrigins
            \/ (x = env !! "FRONTEND_URL"%string /\ truthy x = true)).
Proof.
  rewrite decision_isAllowedOrigin. simpl.
  split; [reflexivity|]. split; [apply isAllowedOrigin_true|].
  split; [|apply allowedOrigins_members].
  rewrite <- not_true_iff_false, isAllowedOrigin_true. tauto.
Qed.

(** The Express middleware consults the same list, but for the header
    only: [Access-Control-Allow-Origin] is set exactly for an origin on
    the list, so not for a request without one. *)
Lemma corsMiddleware_allow_origin (env : Env) (req : Request) (v : string) :
  ("Access-Control-Allow-Origin"%string, v) ∈ fst (corsMiddleware env req)
  <-> headers_origin req = Some v /\ Some v ∈ allowedOrigins env.
Proof.
  unfold corsMiddleware, includes.
  destruct (String.eqb (method req) "OPTIONS"); simpl;
    (destruct (bool_decide_reflect (headers_origin req ∈ allowedOrigins env)) as [Hin|Hout];
     simpl; rewrite !elem_of_cons, elem_of_nil;
     [ destruct (headers_origin req) as [s|] eqn:Ho;
       [ simpl; split;
         [ intros [Heq|[Heq|[Heq|[Heq|[]]]]]; try discriminate;
           injection Heq as ->; auto
         | intros [Heq Hv]; left; congruence ]
       | apply allowedOrigins_truthy in Hin; discriminate ]
     | split;
       [ intros [Heq|[Heq|[Heq|[]]]]; discriminate
       | intros [Heq Hv]; exfalso; apply Hout; by rewrite Heq ] ]).
Qed.

Definition railway : Env := {[ "FRONTEND_URL"%string := "https://coop.up.railway.app"%string ]}.

Lemma cors_callback_is_allow_list_membership_witness :
  decision railway (Some "https://coop.up.railway.app"%string) = (None, true)
  /\ decision railway None = (None, true)
  /\ decision railway (Some "https://evil.example"%string) = (None, false)
  /\ decision ∅ (Some "https://coop.up.railway.app"%string) = (None, false).
Proof.
  split; [exact (proj1 (cors_callback_is_allow_list_membership railway _))|].
  split; [exact (proj1 (cors_callback_is_allow_list_membership railway _))|].
  split; [exact (proj1 (cors_callback_is_allow_list_membership railway _))|].
  exact (proj1 (cors_callback_is_allow_list_membership ∅ _)).
Defined.

End ServerFacts.

(* ====================================================================== *)
(** * Facts about the session-store client                                 *)
(* ====================================================================== *)

Module RedisFacts.
Import JS Redis.

(** The options [initializeRedisClient] creates its client from. *)
Definition clientOptions (env : Env) : ClientOptions :=
  if truthy (env !! "REDIS_URL"%string)
  then fromUrl (env !! "REDIS_URL"%string)
  else fromParts "default" (env !! "DB_PASS"%string)
         {| host := env !! "HOST"%string; port := env !! "REDIS_PORT"%string |}.

Section WithLibrary.
Context {Client : Type} (redis : Library Client).

(** Unfold the combinators of [Async] down to traces and settlements. *)
Ltac run_async :=
  unfold tryCatch, bind, call, throw, emit, await, ret.

(** ** The function, outcome by outcome *)

Lemma initializeRedisClient_create_throws env error t :
  createClient redis (clientOptions env) = inr error ->
  initializeRedisClient redis env t
  = (Rejected error, t ++ [console_error "Failed to connect to Redis:" error]).
Proof.
  unfold clientOptions, initializeRedisClient. run_async.
  destruct (truthy (env !! "REDIS_URL"%string)); intros ->; reflexivity.
Qed.

Lemma initializeRedisClient_created env client t :
  createClient redis (clientOptions env) = inl client ->
  initializeRedisClient redis env t
  = let t1 := t ++ [setInterval (pingProbe client) 60000; client_connect client] in
    match connect redis client with
    | Fulfilled _ => (Fulfilled client, t1 ++ [console_log "✅ Connected to Redis"])
    | Rejected err =>
        (Fulfilled client, t1 ++ [console_error "❌ Redis connection error:" err])
    | Pending => (Pending, t1)
    end.
Proof.
  unfold clientOptions, initializeRedisClient. run_async.
  destruct (truthy (env !! "REDIS_URL"%string)); intros ->; simpl;
    destruct (connect redis client) as [[]| |]; simpl;
    by rewrite <- ?app_assoc.
Qed.

(** ** One run of the probe *)

Lemma runCallback_pingProbe client n t :
  runCallback redis (pingProbe client) n t
  = match ping redis client n with
    | Fulfilled _ => (Fulfilled tt, t ++ [client_ping client])
    | Rejected err =>
        (Fulfilled tt,
         t ++ [client_ping client; console_error "❌ Redis ping failed:" err])
    | Pending => (Pending, t ++ [client_ping client])
    end.
Proof.
  unfold runCallback. run_async.
  destruct (ping redis client n); simpl; by rewrite <- ?app_assoc.
Qed.

Lemma runCallback_never_rejects cb n t err :
  fst (runCallback redis cb n t) <> Rejected err.
Proof.
  destruct cb as [client]. rewrite runCallback_pingProbe.
  by destruct (ping redis client n).
Qed.

Lemma pingsSent_app (t1 t2 : Trace Client) :
  pingsSent (t1 ++ t2) = (pingsSent t1 + pingsSent t2)%nat.
Proof. unfold pingsSent. by rewrite omap_app, length_app. Qed.

Lemma runCallback_sends_one_ping cb n t :
  pingsSent (snd (runCallback redis cb n t)) = S (pingsSent t).
Proof.
  destruct cb as [client]. rewrite runCallback_pingProbe.
  destruct (ping redis client n); simpl; rewrite pingsSent_app;
    unfold pingsSent; simpl; lia.
Qed.

(** ** The interval *)

Lemma runInterval_alive cb from periods t :
  fst (runInterval redis cb from periods t) = Alive
  /\ pingsSent (snd (runInterval redis cb from periods t))
     = (pingsSent t + periods)%nat.
Proof.
  revert from t. induction periods as [|periods IH]; intros from t; simpl.
  - split; [reflexivity|lia].
  - pose proof (runCallback_never_rejects cb from t) as Hnever.
    pose proof (runCallback_sends_one_ping cb from t) as Hone.
    destruct (runCallback redis cb from t) as [[[]|err|] t']; simpl in *.
    + destruct (IH (S from) t') as [-> ->]. split; [reflexivity|lia].
    + by destruct (Hnever err).
    + destruct (IH (S from) t') as [-> ->]. split; [reflexivity|lia].
Qed.

(** C5. The probe is registered with a period of 60000 milliseconds
    (and is the only interval registered); a run of the probe whose ping
    fails ends normally, having logged the error; no run of the probe
    ends in a rejection; and whatever the pings do, the interval is
    alive after any number of periods and has sent one ping in each. *)
Theorem ping_probe_contains_failures (client : Client) :
  (forall env,
      intervals (snd (initializeRedisClient redis env []))
      = match createClient redis (clientOptions env) with
        | inl created => [(pingProbe created, 60000)]
        | inr _ => []
        end)
  /\ (forall n t err,
        ping redis client n = Rejected err ->
        runCallback redis (pingProbe client) n t
        = (Fulfilled tt,
           t ++ [client_ping client; console_error "❌ Redis ping failed:" err]))
  /\ (forall n t err, fst (runCallback redis (pingProbe client) n t) <> Rejected err)
  /\ (forall from periods t,
        fst (runInterval redis (pingProbe client) from periods t) = Alive
        /\ pingsSent (snd (runInterval redis (pingProbe client) from periods t))
           = (pingsSent t + periods)%nat).
Proof.
  split_and!.
  - intros env.
    destruct (createClient redis (clientOptions env)) as [created|error] eqn:Hcreate.
    + rewrite (initializeRedisClient_created _ _ _ Hcreate). simpl.
      by destruct (connect redis created).
    + by rewrite (initializeRedisClient_create_throws _ _ _ Hcreate).
  - intros n t err Hping. by rewrite runCallback_pingProbe, Hping.
  - intros n t err. apply runCallback_never_rejects.
  - intros from periods t. apply runInterval_alive.
Qed.

(** C6. When the client was created and its [connect] promise rejects,
    [initializeRedisClient] logs the connection error and is fulfilled
    with the created client; it does not reject. *)
Theorem initializeRedisClient_survives_connect_failure
    (env : Env) (client : Client) (err : Err) (t : Trace Client) :
  createClient redis (clientOptions env) = inl client ->
  connect redis client = Rejected err ->
  initializeRedisClient redis env t
  = (Fulfilled client,
     t ++ [ setInterval (pingProbe client) 60000;
            client_connect client;
            console_error "❌ Redis connection error:" err ]).
Proof.
  intros Hcreate Hconnect.
  rewrite (initializeRedisClient_created _ _ _ Hcreate), Hconnect. simpl.
  by rewrite <- app_assoc.
Qed.

End WithLibrary.

(** ** A store that is down *)

(** A library whose server refuses the connection and fails every
    second ping. *)
Definition unreachable : Library string :=
  {| createClient := fun _ => inl "client"%string;
     connect := fun _ => Rejected "ECONNREFUSED"%string;
     ping := fun _ n => if Nat.even n then Rejected "closed"%string
                        else Fulfilled "PONG"%string |}.

Lemma ping_probe_contains_failures_witness :
  runCallback unreachable (pingProbe "client"%string) 0 []
  = (Fulfilled tt,
     [ client_ping "client"%string;
       console_error "❌ Redis ping failed:" "closed"%string ])
  /\ fst (runInterval unreachable (pingProbe "client"%string) 0 3 []) = Alive
  /\ pingsSent (snd (runInterval unreachable (pingProbe "client"%string) 0 3 [])) = 3%nat
  /\ intervals (snd (initializeRedisClient unreachable ∅ []))
     = [(pingProbe "client"%string, 60000)].
Proof.
  destruct (ping_probe_contains_failures unreachable "client"%string)
    as (Hreg & Hfail & _ & Hloop).
  split; [exact (Hfail 0%nat [] "closed"%string eq_refl)|].
  split; [exact (proj1 (Hloop 0%nat 3%nat []))|].
  split; [exact (proj2 (Hloop 0%nat 3%nat []))|].
  exact (Hreg ∅).
Defined.

Lemma initializeRedisClient_survives_connect_failure_witness :
  initializeRedisClient unreachable ∅ []
  = (Fulfilled "client"%string,
     [ setInterval (pingProbe "client"%string) 60000;
       client_connect "client"%string;
       console_error "❌ Redis connection error:" "ECONNREFUSED"%string ]).
Proof.
  exact (initializeRedisClient_survives_connect_failure unreachable ∅
           "client"%string "ECONNREFUSED"%string [] eq_refl eq_refl).
Defined.

End RedisFacts.

(* ====================================================================== *)
(** * More about the store: hovers and cell writes                         *)
(* ====================================================================== *)

Module StoreMore.
Import Store StoreFacts.

(** ** Player hovers *)

(** [state.playerHovers], and [state.playerHovers[id]]. *)
Definition hovers (s : MinesweeperState) : gmap string PlayerHover.t :=
  s playerHovers.

Definition hoverOf (s : MinesweeperState) (id : string) : option PlayerHover.t :=
  hovers s !! id.

Lemma updatePlayerHover_hovers id row col n colour s :
  hovers (updatePlayerHover id row col n colour s)
  = <[id := PlayerHover.mk row col n colour]> (hovers s).
Proof. reflexivity. Qed.

Lemma removePlayerHover_hovers id s :
  hovers (removePlayerHover id s) = delete id (hovers s).
Proof. reflexivity. Qed.

(** X1. After [updatePlayerHover(id, row, col, name, color)] the hover
    stored under [id] is exactly the one given, replacing any earlier
    one; the hovers of all other ids, and all other keys of the store,
    are as before. *)
Theorem updatePlayerHover_sets_one_hover
    (id : string) (row col : Z) (n colour : string) (s : MinesweeperState) :
  let s' := updatePlayerHover id row col n colour s in
  hoverOf s' id
    = Some (PlayerHover.mk row col n colour)
  /\ (forall other : string,
        other <> id ->
        hoverOf s' other
        = hoverOf s other)
  /\ (forall f : Field, f <> playerHovers -> s' f = s f).
Proof.
  intros s'. subst s'. split_and!.
  - unfold hoverOf. rewrite updatePlayerHover_hovers.
    apply lookup_insert_eq.
  - intros other Hne. unfold hoverOf.
    rewrite updatePlayerHover_hovers. by apply lookup_insert_ne.
  - intros f Hne. unfold updatePlayerHover, setWith.
    apply set_frame. simpl.
    apply not_elem_of_cons; split; [done|apply not_elem_of_nil].
Qed.

(** X2. After [removePlayerHover(id)] there is no hover under [id], the
    other hovers and the other keys of the store are as before; and
    after [clearAllHovers()] there is no hover under any id. *)
Theorem removePlayerHover_removes_one_hover (id : string) (s : MinesweeperState) :
  let s' := removePlayerHover id s in
  hoverOf s' id = None
  /\ (forall other : string,
        other <> id ->
        hoverOf s' other
        = hoverOf s other)
  /\ (forall f : Field, f <> playerHovers -> s' f = s f)
  /\ (forall any : string,
        hoverOf (clearAllHovers s) any = None).
Proof.
  intros s'. subst s'. split_and!.
  - unfold hoverOf. rewrite removePlayerHover_hovers.
    apply lookup_delete_eq.
  - intros other Hne. unfold hoverOf.
    rewrite removePlayerHover_hovers. by apply lookup_delete_ne.
  - intros f Hne. unfold removePlayerHover, setWith.
    apply set_frame. simpl.
    apply not_elem_of_cons; split; [done|apply not_elem_of_nil].
  - intros any. apply (lookup_empty (M:=gmap string)).
Qed.

(** X3. Removing the hover of an id that has none changes no hover, and
    removing a hover right after adding it for such an id gives back the
    hovers there were. *)
Theorem removePlayerHover_undoes_update
    (id : string) (row col : Z) (n colour : string) (s : MinesweeperState) :
  hoverOf s id = None ->
  hovers (removePlayerHover id s) = hovers s
  /\ hovers (removePlayerHover id (updatePlayerHover id row col n colour s))
     = hovers s.
Proof.
  unfold hoverOf.
  intros Hfresh. rewrite !removePlayerHover_hovers, updatePlayerHover_hovers.
  split.
  - by apply delete_id.
  - rewrite delete_insert_eq. by apply delete_id.
Qed.

Lemma removePlayerHover_undoes_update_witness :
  hovers (removePlayerHover "abc" initialState) = hovers initialState
  /\ hovers (removePlayerHover "abc"
               (updatePlayerHover "abc" 1 2 "Ann" "#ff0000" initialState))
     = hovers initialState.
Proof.
  exact (removePlayerHover_undoes_update "abc" 1 2 "Ann" "#ff0000"
           initialState eq_refl).
Defined.

Lemma updatePlayerHover_sets_one_hover_witness :
  let s := updatePlayerHover "abc" 1 2 "Ann" "#ff0000" initialState in
  hoverOf (updatePlayerHover "xyz" 3 4 "Bob" "#00ff00" s) "abc" = hoverOf s "abc"
  /\ updatePlayerHover "xyz" 3 4 "Bob" "#00ff00" s room = s room.
Proof.
  intros s.
  destruct (updatePlayerHover_sets_one_hover "xyz" 3 4 "Bob" "#00ff00" s)
    as (_ & Hothers & Hkeys).
  split; [apply Hothers; discriminate|apply Hkeys; discriminate].
Defined.

Lemma removePlayerHover_removes_one_hover_witness :
  let s := updatePlayerHover "abc" 1 2 "Ann" "#ff0000" initialState in
  hoverOf (removePlayerHover "xyz" s) "abc" = hoverOf s "abc"
  /\ removePlayerHover "xyz" s room = s room.
Proof.
  intros s.
  destruct (removePlayerHover_removes_one_hover "xyz" s)
    as (_ & Hothers & Hkeys & _).
  split; [apply Hothers; discriminate|apply Hkeys; discriminate].
Defined.

(** ** Writing cells *)

(** Inside the board, [setCell] is an array write: row [i] gets its
    element [j] replaced. *)
Lemma replaceAt_row (i j : nat) (x : Cell) (rw : list Cell) :
  imap (fun colIndex c =>
          if (Z.of_nat i =? Z.of_nat i) && (Z.of_nat colIndex =? Z.of_nat j)
          then x else c) rw
  = <[j := x]> rw.
Proof.
  apply list_eq. intros k. rewrite list_lookup_imap, Z.eqb_refl. simpl.
  destruct (decide (k = j)) as [->|Hne].
  - rewrite Z.eqb_refl. destruct (rw !! j) as [old|] eqn:Hj; simpl.
    + symmetry. apply list_lookup_insert_eq. by eapply lookup_lt_Some.
    + symmetry. apply lookup_ge_None. rewrite length_insert.
      by apply lookup_ge_None.
  - rewrite list_lookup_insert_ne by done.
    destruct (Z.eqb_spec (Z.of_nat k) (Z.of_nat j)) as [Heq|_]; [lia|].
    by destruct (rw !! k).
Qed.

Lemma replaceAt_insert (i j : nat) (x : Cell) (b : list (list Cell)) (rw : list Cell) :
  b !! i = Some rw ->
  replaceAt (Z.of_nat i) (Z.of_nat j) x b = <[i := <[j := x]> rw]> b.
Proof.
  intros Hrow. unfold replaceAt. apply list_eq. intros k.
  rewrite list_lookup_imap.
  destruct (decide (k = i)) as [->|Hne].
  - rewrite Hrow. simpl. rewrite replaceAt_row.
    symmetry. apply list_lookup_insert_eq. by eapply lookup_lt_Some.
  - rewrite list_lookup_insert_ne by done.
    destruct (b !! k) as [other|]; simpl; [|reflexivity].
    f_equal. apply replaceAt_row_noop. intros c _.
    destruct (Z.eqb_spec (Z.of_nat k) (Z.of_nat i)) as [Heq|_]; [lia|reflexivity].
Qed.

Lemma replaceAt_same (i j : nat) (old : Cell) (b : list (list Cell)) :
  cell b i j = Some old ->
  replaceAt (Z.of_nat i) (Z.of_nat j) old b = b.
Proof.
  unfold cell. intros Hold.
  destruct (b !! i) as [rw|] eqn:Hrow; simpl in Hold; [|done].
  rewrite (replaceAt_insert i j old _ rw Hrow).
  rewrite (list_insert_id rw j old Hold).
  by apply list_insert_id.
Qed.

(** X4. [setCell] keeps the shape of the board: the number of rows and
    the length of every row are as before, whatever the coordinates. *)
Theorem setCell_keeps_shape (row col : Z) (newCell : Cell) (s : MinesweeperState) :
  let before : list (list Cell) := s board in
  let after : list (list Cell) := setCell row col newCell s board in
  length after = length before
  /\ forall i : nat, length <$> after !! i = length <$> before !! i.
Proof.
  intros before after. subst before after.
  rewrite setCell_board. unfold replaceAt. split.
  - apply length_imap.
  - intros i. rewrite list_lookup_imap.
    destruct (_ !! i) as [rw|]; simpl; [|reflexivity].
    by rewrite length_imap.
Qed.

(** X5. Where the board has a cell, [setCell] and reading agree: the
    cell read back at the written coordinates is the one written, and
    writing the cell that is already there changes nothing. *)
Theorem setCell_read_back (i j : nat) (newCell old : Cell) (s : MinesweeperState) :
  cell (s board) i j = Some old ->
  cell (setCell (Z.of_nat i) (Z.of_nat j) newCell s board) i j = Some newCell
  /\ setCell (Z.of_nat i) (Z.of_nat j) old s board = s board.
Proof.
  intros Hold. split.
  - rewrite setCell_board, replaceAt_cell, Hold. simpl. by rewrite !Z.eqb_refl.
  - rewrite setCell_board. by apply replaceAt_same.
Qed.

Lemma replaceAt_twice (row col : Z) (x y : Cell) (b : list (list Cell)) :
  replaceAt row col y (replaceAt row col x b) = replaceAt row col y b.
Proof.
  unfold replaceAt. apply list_eq. intros i. rewrite !list_lookup_imap.
  destruct (b !! i) as [rw|]; simpl; [|reflexivity].
  f_equal. apply list_eq. intros j. rewrite !list_lookup_imap.
  destruct (rw !! j) as [c0|]; simpl; [|reflexivity].
  by destruct ((Z.of_nat i =? row) && (Z.of_nat j =? col)).
Qed.

Lemma replaceAt_commute (row1 col1 row2 col2 : Z) (x y : Cell) (b : list (list Cell)) :
  (row1, col1) <> (row2, col2) ->
  replaceAt row1 col1 x (replaceAt row2 col2 y b)
  = replaceAt row2 col2 y (replaceAt row1 col1 x b).
Proof.
  intros Hne. unfold replaceAt. apply list_eq. intros i.
  rewrite !list_lookup_imap.
  destruct (b !! i) as [rw|]; simpl; [|reflexivity].
  f_equal. apply list_eq. intros j. rewrite !list_lookup_imap.
  destruct (rw !! j) as [c0|]; simpl; [|reflexivity].
  destruct (Z.eqb_spec (Z.of_nat i) row1), (Z.eqb_spec (Z.of_nat j) col1),
           (Z.eqb_spec (Z.of_nat i) row2), (Z.eqb_spec (Z.of_nat j) col2);
    simpl; try reflexivity.
  exfalso. apply Hne. congruence.
Qed.

(** X6. Two [setCell] calls compose as array writes do: on the same
    coordinates the later one wins, and on different coordinates the
    order does not matter. The resulting stores agree on every key. *)
Theorem setCell_composes (row1 col1 row2 col2 : Z) (x y : Cell)
    (s : MinesweeperState) (f : Field) :
  setCell row1 col1 y (setCell row1 col1 x s) f = setCell row1 col1 y s f
  /\ ((row1, col1) <> (row2, col2) ->
      setCell row1 col1 x (setCell row2 col2 y s) f
      = setCell row2 col2 y (setCell row1 col1 x s) f).
Proof.
  destruct (decide (f = board)) as [->|Hother].
  - rewrite !setCell_board. split.
    + apply replaceAt_twice.
    + intros Hne. by apply replaceAt_commute.
  - by rewrite !setCell_other_fields.
Qed.

Definition twoByTwo : MinesweeperState :=
  setBoard [ [ mkCell false true false 1; mkCell true false true 0 ];
             [ mkCell true true false 0; mkCell false false false 2 ] ]
           initialState.

Lemma setCell_read_back_witness :
  let x := mkCell false true false 2 in
  cell (setCell 1 1 x twoByTwo board) 1 1 = Some x
  /\ setCell 1 1 (mkCell false false false 2) twoByTwo board = twoByTwo board.
Proof.
  intros x.
  exact (setCell_read_back 1 1 x (mkCell false false false 2) twoByTwo eq_refl).
Defined.

Lemma setCell_composes_witness :
  let x := mkCell false true false 2 in
  let y := mkCell false false true 2 in
  setCell 0 0 x (setCell 1 1 y twoByTwo) board
  = setCell 1 1 y (setCell 0 0 x twoByTwo) board.
Proof.
  intros x y.
  apply (proj2 (setCell_composes 0 0 1 1 x y twoByTwo board)). discriminate.
Defined.

End StoreMore.

(* ====================================================================== *)
(** * More about the Grid component: counters                              *)
(* ====================================================================== *)

Module GridMore.
Import Store Grid StoreFacts GridFacts.

#[local] Existing Instance Grid.Cell_inhabited.

(** ** Counting cells *)

(** The cells of a board, row after row, that satisfy [p]. *)
Definition countCells (p : Cell -> bool) (b : list (list Cell)) : nat :=
  length (List.filter p (concat b)).

Lemma count_in_row (p : Cell -> bool) (rw : list Cell) (acc : Z) :
  foldl (fun n x => if p x then n + 1 else n) acc rw
  = acc + Z.of_nat (length (List.filter p rw)).
Proof.
  revert acc. induction rw as [|x rw IH]; intros acc; simpl; [lia|].
  rewrite IH. destruct (p x); simpl; lia.
Qed.

Lemma count_in_rows (p : Cell -> bool) (b : list (list Cell)) (acc : Z) :
  foldl (fun n rw => foldl (fun n x => if p x then n + 1 else n) n rw) acc b
  = acc + Z.of_nat (countCells p b).
Proof.
  unfold countCells. revert acc.
  induction b as [|rw b IH]; intros acc; simpl; [lia|].
  rewrite IH, count_in_row, List.filter_app, length_app. lia.
Qed.

(** The nested index loops of [remainingFlags] and [ownProgress] count
    the cells that pass the test of their [if]. *)
Lemma loops_count (p : Cell -> bool) (b : list (list Cell)) (acc : Z) :
  forLoop (length b) (fun i n =>
    forLoop (length (b !!! i)) (fun j n =>
      if p ((b !!! i) !!! j) then n + 1 else n) n) acc
  = acc + Z.of_nat (countCells p b).
Proof.
  rewrite (forLoop_elements
             (fun rw n => forLoop (length rw)
                            (fun j n => if p (rw !!! j) then n + 1 else n) n)).
  erewrite foldl_ext_in.
  - apply count_in_rows.
  - intros n rw _. simpl.
    apply (forLoop_elements (fun x n => if p x then n + 1 else n)).
Qed.

Lemma ownProgress_count (s : MinesweeperState) :
  ownProgress s
  = Z.of_nat (countCells (fun x => isOpen x && negb (isMine x)) (s board)).
Proof.
  unfold ownProgress. cbv zeta.
  rewrite (loops_count (fun x => isOpen x && negb (isMine x))). lia.
Qed.



(** ** Progress against the safe cells *)

Lemma filter_length_le (p q : Cell -> bool) (l : list Cell) :
  (forall x, p x = true -> q x = true) ->
  (length (List.filter p l) <= length (List.filter q l))%nat
  /\ (length (List.filter p l) = length (List.filter q l)
      <-> Forall (fun x => q x = true -> p x = true) l).
Proof.
  intros Hpq. induction l as [|x l [IHle IHeq]]; simpl.
  - split; [lia|]. split; [constructor|reflexivity].
  - destruct (p x) eqn:Hp, (q x) eqn:Hq; simpl.
    + split; [lia|]. rewrite Forall_cons, <- IHeq. split; [|lia].
      intros Heq. split; [congruence|lia].
    + rewrite (Hpq x Hp) in Hq. discriminate.
    + split; [lia|]. split; [lia|].
      intros Hall. apply Forall_cons in Hall as [Hx _].
      specialize (Hx Hq). congruence.
    + split; [lia|]. rewrite Forall_cons, <- IHeq. split; [|tauto].
      intros Heq. split; [congruence|done].
Qed.

(** X8. [ownProgress] lies between zero and the number of cells of the
    board that are not mines, and it reaches that number exactly when
    every cell that is not a mine is open. *)
Theorem ownProgress_bounded_by_safe_cells (s : MinesweeperState) :
  let safe := Z.of_nat (length (List.filter (fun x => negb (isMine x))
                                            (concat (s board)))) in
  0 <= ownProgress s <= safe
  /\ (ownProgress s = safe
      <-> Forall (fun x => isMine x = false -> isOpen x = true) (concat (s board))).
Proof.
  intros safe. subst safe. rewrite ownProgress_count. unfold countCells.
  destruct (filter_length_le (fun x => isOpen x && negb (isMine x))
              (fun x => negb (isMine x)) (concat (s board))) as [Hle Heq].
  { intros x Hx. by apply andb_true_iff in Hx as [_ Hx]. }
  split; [lia|].
  rewrite Nat2Z.inj_iff, Heq. apply Forall_iff. intros x.
  destruct (isMine x), (isOpen x); simpl; intuition congruence.
Qed.

(** ** Counters after a cell write *)

Lemma filter_length_insert (p : Cell -> bool) (rw : list Cell) (j : nat) (old x : Cell) :
  rw !! j = Some old ->
  Z.of_nat (length (List.filter p (<[j := x]> rw)))
  = Z.of_nat (length (List.filter p rw)) + Z.b2z (p x) - Z.b2z (p old).
Proof.
  intros Hj.
  assert (Hins : <[j := x]> rw = take j rw ++ x :: drop (S j) rw)
    by (apply insert_take_drop; by eapply lookup_lt_Some).
  assert (Hrw : rw = take j rw ++ old :: drop (S j) rw)
    by (symmetry; by apply take_drop_middle).
  rewrite Hins. remember (take j rw) as l1. remember (drop (S j) rw) as l2.
  rewrite Hrw, !List.filter_app, !length_app. simpl.
  destruct (p x), (p old); simpl; lia.
Qed.

Lemma countCells_insert (p : Cell -> bool) (b : list (list Cell))
    (i j : nat) (rw : list Cell) (old x : Cell) :
  b !! i = Some rw -> rw !! j = Some old ->
  Z.of_nat (countCells p (<[i := <[j := x]> rw]> b))
  = Z.of_nat (countCells p b) + Z.b2z (p x) - Z.b2z (p old).
Proof.
  intros Hi Hj. unfold countCells.
  assert (Hins : <[i := <[j := x]> rw]> b
                 = take i b ++ <[j := x]> rw :: drop (S i) b)
    by (apply insert_take_drop; by eapply lookup_lt_Some).
  assert (Hb : b = take i b ++ rw :: drop (S i) b)
    by (symmetry; by apply take_drop_middle).
  rewrite Hins. remember (take i b) as b1. remember (drop (S i) b) as b2.
  rewrite Hb, !concat_app. simpl.
  rewrite !List.filter_app, !length_app, !Nat2Z.inj_add.
  rewrite (filter_length_insert p rw j old x Hj). lia.
Qed.

Lemma countCells_setCell (p : Cell -> bool) (i j : nat) (x old : Cell)
    (s : MinesweeperState) :
  cell (s board) i j = Some old ->
  Z.of_nat (countCells p (setCell (Z.of_nat i) (Z.of_nat j) x s board))
  = Z.of_nat (countCells p (s board)) + Z.b2z (p x) - Z.b2z (p old).
Proof.
  rewrite setCell_board. generalize (s board : list (list Cell)). intros b.
  unfold cell. intros Hold.
  destruct (b !! i) as [rw|] eqn:Hi; simpl in Hold; [|done].
  rewrite (StoreMore.replaceAt_insert i j x b rw Hi).
  by apply countCells_insert.
Qed.

(** X9. Writing a cell of the board with [setCell] moves [ownProgress]
    by what that cell contributes: plus one if the new cell is open and
    not a mine, minus one if the old cell was. Opening a closed safe
    cell adds exactly one; an open mine adds nothing. *)
Theorem ownProgress_after_setCell (i j : nat) (x old : Cell) (s : MinesweeperState) :
  cell (s board) i j = Some old ->
  ownProgress (setCell (Z.of_nat i) (Z.of_nat j) x s)
  = ownProgress s
    + Z.b2z (isOpen x && negb (isMine x))
    - Z.b2z (isOpen old && negb (isMine old)).
Proof.
  intros Hold. rewrite !ownProgress_count.
  by rewrite (countCells_setCell _ i j x old s Hold).
Qed.


Lemma ownProgress_after_setCell_witness :
  ownProgress (setCell 1 1 (mkCell false true false 2) sampleState)
  = ownProgress sampleState + 1 - 0.
Proof.
  exact (ownProgress_after_setCell 1 1 (mkCell false true false 2)
           (mkCell false false false 2) sampleState eq_refl).
Defined.


(** ** Progress after a rematch reset *)

(** X11. Right after [resetPvpState] both progress bars read exactly 0,
    without a division, although the player's own count of revealed
    cells is what it was: the reset zeroes [pvpTotalSafeCells] and leaves
    the board. *)
Theorem progress_after_resetPvpState (s : MinesweeperState) :
  ownProgressPercent (resetPvpState s) = (0%float, [])
  /\ opponentProgressPercent (resetPvpState s) = (0%float, [])
  /\ ownProgress (resetPvpState s) = ownProgress s.
Proof.
  split_and!.
  - reflexivity.
  - reflexivity.
  - rewrite !ownProgress_count.
    by change (resetPvpState s board) with (s board).
Qed.

(** ** The latch over a session *)

(** [bothPressed] says what the buttons say: set when both are down,
    clear when both are up (with one button down it may be either). *)
Definition latchAgrees (s : MinesweeperState) : Prop :=
  (s leftClick = true -> s rightClick = true -> s bothPressed = true)
  /\ (s leftClick = false -> s rightClick = false -> s bothPressed = false).

(** An update that leaves [bothPressed] to the effect. *)
Definition keepsLatch (update : MinesweeperState -> MinesweeperState) : Prop :=
  forall s, update s bothPressed = s bothPressed.

Lemma chordingEffect_deps (w : World) :
  deps (store (chordingEffect w)) = deps (store w).
Proof.
  unfold deps. by rewrite !chordingEffect_store_frame by discriminate.
Qed.

Lemma chordingEffect_latchAgrees (w : World) :
  latchAgrees (store (chordingEffect w)).
Proof.
  unfold latchAgrees.
  rewrite chordingEffect_latch, !chordingEffect_store_frame by discriminate.
  destruct (store w leftClick), (store w rightClick); simpl; split; congruence.
Qed.

Lemma session_keeps_latch updates (w : World) :
  Forall keepsLatch updates ->
  latchAgrees (store w) ->
  latchAgrees (store (session updates (Some (deps (store w))) w)).
Proof.
  intros Hupdates. revert w.
  induction Hupdates as [|update rest Hupdate _ IH]; intros w Hw; [exact Hw|].
  cbn [session].
  set (rendered := onStore update w). unfold afterRender.
  case_decide as Hsame.
  - apply IH. injection Hsame as Hl Hr _ _.
    unfold latchAgrees, rendered, onStore in *. simpl in *.
    rewrite Hupdate, <- Hl, <- Hr. exact Hw.
  - rewrite <- (chordingEffect_deps rendered).
    apply IH, chordingEffect_latchAgrees.
Qed.

(** X12. In a session that starts with the first render, in which the
    store is updated between renders by anything that does not itself
    write [bothPressed], the latch agrees with the buttons after every
    render: it is set whenever both buttons are down and clear whenever
    both are up. *)
Theorem session_latch_follows_buttons
    (update : MinesweeperState -> MinesweeperState)
    (updates : list (MinesweeperState -> MinesweeperState)) (w : World) :
  Forall keepsLatch updates ->
  latchAgrees (store (session (update :: updates) None w)).
Proof.
  intros Hupdates. cbn [session].
  set (rendered := onStore update w). unfold afterRender.
  case_decide as Hsame; [discriminate|].
  rewrite <- (chordingEffect_deps rendered).
  by apply session_keeps_latch, chordingEffect_latchAgrees.
Qed.

Lemma session_latch_follows_buttons_witness :
  latchAgrees
    (store (session [ setCoord 2 3; setLeftClick true; setRightClick true;
                      setLeftClick false; setRightClick false ]
                    None (mkWorld initialState []))).
Proof.
  apply (session_latch_follows_buttons (setCoord 2 3)
           [ setLeftClick true; setRightClick true;
             setLeftClick false; setRightClick false ]).
  repeat constructor.
Defined.

End GridMore.

(* ====================================================================== *)
(** * The clock: when it runs, what it shows                               *)
(* ====================================================================== *)

Module ClockFacts.
Import Store Grid GridView Timer StoreFacts.

(** ** The two timer effects of the Grid *)

(** On a board with at least one row, "all closed" is the opposite of
    "has an open cell"; on a board without rows both are false. *)
Lemma allClosed_hasOpenCell (b : list (list Cell)) :
  allClosed b = negb (hasOpenCell b) && (0 <? length b)%nat.
Proof.
  unfold allClosed, hasOpenCell. rewrite andb_comm. f_equal.
  induction b as [|rw b IH]; simpl; [reflexivity|].
  rewrite IH, negb_orb. f_equal.
  induction rw as [|x rw IHrw]; simpl; [reflexivity|].
  by rewrite IHrw, negb_orb.
Qed.

Lemma timerEffect_timerRunning (w : World) :
  store (timerEffect w) timerRunning
  = if store w gameOver || store w gameWon then false
    else if hasOpenCell (store w board) then true
    else store w timerRunning.
Proof.
  unfold timerEffect, andThen, onStore, skip.
  destruct (hasOpenCell (store w board)), (store w gameOver), (store w gameWon);
    reflexivity.
Qed.

Lemma setTimerRunning_frame (running : bool) (s : MinesweeperState) (f : Field) :
  f <> timerRunning -> setTimerRunning running s f = s f.
Proof.
  intros Hne. apply set_frame. simpl.
  apply not_elem_of_cons; split; [done|apply not_elem_of_nil].
Qed.

Lemma timerEffect_frame (w : World) (f : Field) :
  f <> timerRunning -> store (timerEffect w) f = store w f.
Proof.
  intros Hne. unfold timerEffect, andThen, onStore, skip.
  destruct (hasOpenCell (store w board)), (store w gameOver), (store w gameWon);
    simpl; by rewrite ?setTimerRunning_frame.
Qed.

Lemma timerEffect_calls (w : World) : calls (timerEffect w) = calls w.
Proof.
  unfold timerEffect, andThen, onStore, skip.
  by destruct (hasOpenCell (store w board)), (store w gameOver), (store w gameWon).
Qed.

(** X14. After the Grid's two timer effects have run on a board with at
    least one row, the timer runs exactly when some cell is open and the
    game is neither over nor won; the seconds are kept while a cell is
    open and are zero when none is; no prop callback is invoked. *)
Theorem timer_runs_while_cells_open_and_game_on (w : World) :
  store w board <> [] ->
  let s := store w in
  let w' := (timerEffect ;; resetTimerEffect) w in
  store w' timerRunning
    = hasOpenCell (s board) && negb (s gameOver) && negb (s gameWon)
  /\ store w' timerSeconds
     = (if hasOpenCell (s board) then s timerSeconds else 0)
  /\ calls w' = calls w.
Proof.
  intros Hrows s w'. subst s w'. unfold andThen, resetTimerEffect. cbv zeta.
  rewrite (timerEffect_frame w board) by discriminate.
  rewrite allClosed_hasOpenCell.
  assert (Hlen : (0 <? length (store w board))%nat = true).
  { apply Nat.ltb_lt. destruct (store w board); [done|simpl; lia]. }
  rewrite Hlen, andb_true_r.
  destruct (hasOpenCell (store w board)) eqn:Hopen; simpl.
  - rewrite timerEffect_timerRunning, Hopen, timerEffect_calls.
    rewrite (timerEffect_frame w timerSeconds) by discriminate.
    by destruct (store w gameOver), (store w gameWon).
  - rewrite timerEffect_calls. split_and!; reflexivity.
Qed.

(** X15. On a board without rows the reset effect does nothing and the
    timer effect can only stop the timer: whatever seconds the clock
    shows stay on it, and a running timer keeps running unless the game
    is over or won. *)
Theorem timer_untouched_on_empty_board (w : World) :
  store w board = [] ->
  let s := store w in
  let w' := (timerEffect ;; resetTimerEffect) w in
  store w' timerSeconds = s timerSeconds
  /\ store w' timerRunning
     = (if s gameOver || s gameWon then false else s timerRunning).
Proof.
  intros Hempty s w'. subst s w'. unfold andThen, resetTimerEffect. cbv zeta.
  rewrite (timerEffect_frame w board) by discriminate.
  rewrite allClosed_hasOpenCell, Hempty. simpl.
  rewrite timerEffect_timerRunning, Hempty. simpl.
  by rewrite (timerEffect_frame w timerSeconds) by discriminate.
Qed.

Lemma hasOpenCell_of_count (p : Cell -> bool) (b : list (list Cell)) :
  (forall x, p x = true -> isOpen x = true) ->
  (0 < GridMore.countCells p b)%nat -> hasOpenCell b = true.
Proof.
  intros Hp. unfold GridMore.countCells, hasOpenCell.
  induction b as [|rw b IH]; simpl; [lia|].
  rewrite List.filter_app, length_app. intros Hpos.
  apply orb_true_iff.
  destruct (List.filter p rw) as [|x l] eqn:Hrw; simpl in Hpos.
  - right. by apply IH.
  - left. apply existsb_exists. exists x.
    assert (Hx : In x (List.filter p rw)) by (rewrite Hrw; by left).
    apply List.filter_In in Hx as [Hin Hpx]. split; [exact Hin|by apply Hp].
Qed.

(** X16. As soon as the player has revealed a safe cell and the game is
    neither over nor won, the timer is running after the timer effects,
    and the reset effect leaves its seconds alone. *)
Theorem timer_runs_once_progress_is_made (w : World) :
  0 < ownProgress (store w) ->
  store w gameOver = false ->
  store w gameWon = false ->
  let w' := (timerEffect ;; resetTimerEffect) w in
  store w' timerRunning = true
  /\ store w' timerSeconds = store w timerSeconds.
Proof.
  intros Hprogress Hover Hwon w'. subst w'.
  rewrite GridMore.ownProgress_count in Hprogress.
  assert (Hopen : hasOpenCell (store w board) = true).
  { eapply hasOpenCell_of_count; [|apply Nat2Z.inj_lt; exact Hprogress].
    intros x Hx. by apply andb_true_iff in Hx as [Hx _]. }
  unfold andThen, resetTimerEffect. cbv zeta.
  rewrite (timerEffect_frame w board) by discriminate.
  rewrite allClosed_hasOpenCell, Hopen. simpl.
  rewrite timerEffect_timerRunning, Hover, Hwon, Hopen. simpl.
  by rewrite (timerEffect_frame w timerSeconds) by discriminate.
Qed.

Definition playing : World :=
  mkWorld (setTimerSeconds 42 GridFacts.sampleState) [].

Lemma timer_runs_while_cells_open_and_game_on_witness :
  store ((timerEffect ;; resetTimerEffect) playing) timerRunning = true
  /\ store ((timerEffect ;; resetTimerEffect) playing) timerSeconds = 42
  /\ calls ((timerEffect ;; resetTimerEffect) playing) = [].
Proof.
  apply (timer_runs_while_cells_open_and_game_on playing). discriminate.
Defined.

Lemma timer_untouched_on_empty_board_witness :
  let stale := mkWorld (setTimerRunning true (setTimerSeconds 42 initialState)) [] in
  store ((timerEffect ;; resetTimerEffect) stale) timerSeconds = 42
  /\ store ((timerEffect ;; resetTimerEffect) stale) timerRunning = true.
Proof.
  intros stale. apply (timer_untouched_on_empty_board stale). reflexivity.
Defined.

Lemma timer_runs_once_progress_is_made_witness :
  store ((timerEffect ;; resetTimerEffect) playing) timerRunning = true
  /\ store ((timerEffect ;; resetTimerEffect) playing) timerSeconds
     = store playing timerSeconds.
Proof.
  apply (timer_runs_once_progress_is_made playing); reflexivity.
Defined.

(** ** The ticking of the Timer component *)






(** ** What the clock shows *)

Definition digit (d : Z) : Ascii.ascii := pretty_N_char (Z.to_N d).

(** The two decimal digits of a number below 100. *)
Definition twoDigits (n : Z) : string :=
  String (digit (n / 10)) (String (digit (n mod 10)) "").





Lemma padStart_two_digits (n : Z) :
  0 <= n < 100 -> padStart 2 "0" (toString n) = twoDigits n.
Proof.
  intros Hn.
  assert (Hall : forallb (fun k => bool_decide
                            (padStart 2 "0" (toString k) = twoDigits k))
                         (seqZ 0 100) = true) by (vm_compute; reflexivity).
  rewrite forallb_forall in Hall.
  eapply bool_decide_eq_true_1, Hall, list_elem_of_In, elem_of_seqZ. lia.
Qed.






Lemma formatTime_nonneg (seconds : Z) :
  0 <= seconds ->
  formatTime seconds
  = padStart 2 "0" (toString (seconds / 60))
    +:+ ":" +:+ twoDigits (seconds mod 60).
Proof.
  intros Hs. unfold formatTime. cbv zeta.
  rewrite Z.rem_mod_nonneg by lia.
  rewrite (padStart_two_digits (seconds mod 60))
    by (pose proof (Z.mod_pos_bound seconds 60); lia).
  reflexivity.
Qed.

(** X18. For a time below one hundred minutes ([0 <= seconds < 6000])
    [formatTime] gives exactly five characters: the two digits of the
    minutes, a colon, the two digits of the seconds. *)
Theorem formatTime_is_MM_colon_SS (seconds : Z) :
  0 <= seconds < 6000 ->
  formatTime seconds
    = twoDigits (seconds / 60) +:+ ":" +:+ twoDigits (seconds mod 60)
  /\ String.length (formatTime seconds) = 5%nat.
Proof.
  intros Hs. rewrite formatTime_nonneg by lia.
  rewrite padStart_two_digits
    by (split; [apply Z.div_pos; lia|apply Z.div_lt_upper_bound; lia]).
  split; reflexivity.
Qed.


(** Some times, among them two that [formatTime] is not meant for. *)
Example formatTime_samples :
  formatTime 0 = "00:00"
  /\ formatTime 75 = "01:15"
  /\ formatTime 5999 = "99:59"
  /\ formatTime 6000 = "100:00"
  /\ formatTime (-5) = "-1:-5".
Proof. repeat split; vm_compute; reflexivity. Qed.

Lemma formatTime_is_MM_colon_SS_witness :
  formatTime 754 = "12:34" /\ String.length (formatTime 754) = 5%nat.
Proof. apply (formatTime_is_MM_colon_SS 754). lia. Defined.


End ClockFacts.

(* ====================================================================== *)
(** * What the Grid shows                                                  *)
(* ====================================================================== *)

Module ViewFacts.
Import Store Grid GridView.

(** How many of a list of elements are shown. *)
Definition shown (elements : list bool) : nat :=
  length (List.filter (fun visible => visible) elements).

Lemma not_both_modes (s : MinesweeperState) : isPvp s && isCoop s = false.
Proof.
  unfold isPvp, isCoop.
  destruct (String.eqb_spec (s mode) "pvp") as [Hpvp|]; [|reflexivity].
  destruct (String.eqb_spec (s mode) "co-op") as [Hcoop|]; [|reflexivity].
  rewrite Hpvp in Hcoop. discriminate.
Qed.

(** X20. Before a PVP game has started exactly one of "Waiting for
    opponent...", the "Start Game" button and "Waiting for host to
    start..." is shown; once it has started, and in any other mode, none
    of them is. *)
Theorem one_pregame_banner (s : MinesweeperState) :
  shown [showsWaitingForOpponent s; showsStartGame s; showsWaitingForHost s]
  = if isPvp s && negb (s pvpStarted) then 1%nat else 0%nat.
Proof.
  unfold shown, showsWaitingForOpponent, showsStartGame, showsWaitingForHost.
  by destruct (isPvp s), (s pvpRoomReady), (s pvpStarted), (s pvpIsHost).
Qed.

(** X21. At most one of "Reset Board", "Reset My Board", "Rematch" and
    "Waiting for host to start rematch..." is shown at a time, and
    "GAME LOST!" and "HIT A MINE!" are never shown together. *)
Theorem one_action_and_one_loss_banner (s : MinesweeperState) :
  (shown [showsResetBoard s; showsResetMyBoard s; showsRematch s;
          showsWaitingForRematch s] <= 1)%nat
  /\ (shown [showsGameLost s; showsHitAMine s] <= 1)%nat.
Proof.
  pose proof (not_both_modes s) as Hmodes.
  unfold shown, showsResetBoard, showsResetMyBoard, showsRematch,
    showsWaitingForRematch, showsGameLost, showsHitAMine.
  destruct (isPvp s), (isCoop s); try discriminate;
    destruct (s gameOver), (s gameWon), (JS.truthy (s pvpWinner)), (s pvpIsHost);
    simpl; lia.
Qed.

End ViewFacts.

(* ====================================================================== *)
(** * More about the server: the Express middleware                       *)
(* ====================================================================== *)

Module ServerMore.
Import JS Server ServerFacts.

(** The three headers every response gets. *)
Definition fixedHeaders : list (string * string) :=
  [ ("Access-Control-Allow-Methods", "GET, POST, OPTIONS");
    ("Access-Control-Allow-Headers", "Content-Type");
    ("Access-Control-Allow-Credentials", "true") ]%string.

Lemma corsMiddleware_headers (env : Env) (req : Request) :
  fst (corsMiddleware env req)
  = (if includes (allowedOrigins env) (headers_origin req)
     then [("Access-Control-Allow-Origin"%string,
            default ""%string (headers_origin req))]
     else [])
    ++ fixedHeaders.
Proof.
  unfold corsMiddleware. by destruct (String.eqb (method req) "OPTIONS").
Qed.

Lemma includes_allowed (env : Env) (o : Str) :
  includes (allowedOrigins env) o = true
  <-> exists v, o = Some v /\ v <> ""%string /\ Some v ∈ allowedOrigins env.
Proof.
  unfold includes. rewrite bool_decide_eq_true. split.
  - intros Hin. pose proof (allowedOrigins_truthy env o Hin) as Ht.
    destruct o as [v|]; [|discriminate]. exists v. split_and!; [done| |done].
    intros ->. discriminate.
  - by intros (v & -> & _ & Hin).
Qed.

(** X22. Whatever the origin and whether it is allowed or not, the
    Express middleware sets the methods, headers and credentials headers
    last and in this order, preceded by at most the one
    [Access-Control-Allow-Origin] header; and it answers an [OPTIONS]
    request with status 200 without passing it on, and passes every
    other request on. *)
Theorem corsMiddleware_always_sets_fixed_headers (env : Env) (req : Request) :
  (exists first, fst (corsMiddleware env req) = first ++ fixedHeaders
                 /\ (length first <= 1)%nat)
  /\ (snd (corsMiddleware env req) = sendStatus 200 <-> method req = "OPTIONS"%string)
  /\ (snd (corsMiddleware env req) = next <-> method req <> "OPTIONS"%string).
Proof.
  split_and!.
  - eexists. split; [apply corsMiddleware_headers|].
    destruct (includes _ _); simpl; lia.
  - unfold corsMiddleware.
    destruct (String.eqb_spec (method req) "OPTIONS"); simpl; split; congruence.
  - unfold corsMiddleware.
    destruct (String.eqb_spec (method req) "OPTIONS"); simpl; split; congruence.
Qed.

(** X23. The Express middleware and the Socket.io callback agree on
    every origin that is present: the middleware echoes a non-empty
    origin in [Access-Control-Allow-Origin] exactly when the callback
    allows it. They differ on a request without origin, which the
    callback allows and for which the middleware sets no such header. *)
Theorem express_agrees_with_socket_io (env : Env) (req : Request) (v : string) :
  (("Access-Control-Allow-Origin"%string, v) ∈ fst (corsMiddleware env req)
   <-> headers_origin req = Some v /\ v <> ""%string
       /\ snd (decision env (Some v)) = true)
  /\ (headers_origin req = None ->
      snd (decision env None) = true
      /\ forall u, ("Access-Control-Allow-Origin"%string, u)
                   ∉ fst (corsMiddleware env req)).
Proof.
  rewrite corsMiddleware_headers, !decision_isAllowedOrigin. simpl. split.
  - destruct (includes (allowedOrigins env) (headers_origin req)) eqn:Hinc.
    + apply includes_allowed in Hinc as (u & Ho & Hu & Hin). rewrite Ho. simpl.
      unfold fixedHeaders. rewrite !elem_of_cons, elem_of_nil. split.
      * intros [Heq|[Heq|[Heq|[Heq|[]]]]]; try discriminate.
        injection Heq as <-. split_and!; [done..|].
        apply orb_true_iff. right. by apply bool_decide_eq_true.
      * intros (Heq & _ & _). left. congruence.
    + unfold fixedHeaders. simpl. rewrite !elem_of_cons, elem_of_nil. split.
      * intros [Heq|[Heq|[Heq|[]]]]; discriminate.
      * intros (Ho & Hv & Hallowed). exfalso.
        apply orb_true_iff in Hallowed as [Hempty|Hin].
        { apply String.eqb_eq in Hempty. done. }
        apply bool_decide_eq_true in Hin.
        assert (includes (allowedOrigins env) (headers_origin req) = true)
          by (apply includes_allowed; eauto).
        congruence.
  - intros Hnone. split; [reflexivity|]. intros u.
    assert (Hinc : includes (allowedOrigins env) (headers_origin req) = false).
    { apply not_true_is_false. intros Hinc.
      apply includes_allowed in Hinc as (w & Ho & _). congruence. }
    rewrite Hinc. unfold fixedHeaders. simpl.
    rewrite !elem_of_cons, elem_of_nil.
    intros [Heq|[Heq|[Heq|[]]]]; discriminate.
Qed.

Lemma express_agrees_with_socket_io_witness :
  let req := mkRequest None "GET" in
  snd (decision railway None) = true
  /\ forall u, ("Access-Control-Allow-Origin"%string, u)
               ∉ fst (corsMiddleware railway req).
Proof.
  intros req.
  apply (proj2 (express_agrees_with_socket_io railway req ""%string)).
  reflexivity.
Defined.

End ServerMore.

(* ====================================================================== *)
(** * More about the session-store client                                  *)
(* ====================================================================== *)

Module RedisMore.
Import JS Redis RedisFacts.

(** The [console.error] lines of a trace, and the calls of [connect]. *)
Definition errorsLogged {Client} (t : Trace Client) : nat :=
  length (omap (fun ev => match ev with
                          | console_error msg err => Some (msg, err)
                          | _ => None
                          end) t).

Definition connectsTried {Client} (t : Trace Client) : nat :=
  length (omap (fun ev => match ev with
                          | client_connect c => Some c
                          | _ => None
                          end) t).

Definition isRejected {A} (p : Settlement A) : bool :=
  match p with Rejected _ => true | _ => false end.

(** The pings of periods [from .. from + periods - 1] that fail. *)
Definition failedPings {Client} (redis : Library Client) (client : Client)
    (from periods : nat) : nat :=
  length (List.filter (fun n => isRejected (ping redis client n)) (seq from periods)).

Section WithLibrary.
Context {Client : Type} (redis : Library Client).

(** X24. [initializeRedisClient] rejects only when [createClient]
    throws, and then with the error thrown: it has logged
    "Failed to connect to Redis:", registered no interval and not tried
    to connect. A failing or hanging [connect] never makes it reject. *)
Theorem initializeRedisClient_rejects_iff_create_throws
    (env : Env) (t : Trace Client) (err : Err) :
  (fst (initializeRedisClient redis env t) = Rejected err
   <-> createClient redis (clientOptions env) = inr err)
  /\ (createClient redis (clientOptions env) = inr err ->
      snd (initializeRedisClient redis env t)
      = t ++ [console_error "Failed to connect to Redis:" err]).
Proof.
  destruct (createClient redis (clientOptions env)) as [client|thrown] eqn:Hcreate.
  - rewrite (initializeRedisClient_created _ _ _ _ Hcreate). simpl.
    split; [|discriminate].
    destruct (connect redis client); simpl; split; discriminate.
  - rewrite (initializeRedisClient_create_throws _ _ _ _ Hcreate). simpl.
    split; [split; congruence|]. intros Heq. congruence.
Qed.

(** X25. A [REDIS_URL] that is set and not empty decides everything:
    two environments that agree on it give the same run, whatever
    [DB_PASS], [HOST] and [REDIS_PORT] are. *)
Theorem redis_url_takes_precedence (env env' : Env) (t : Trace Client) :
  truthy (env !! "REDIS_URL"%string) = true ->
  env' !! "REDIS_URL"%string = env !! "REDIS_URL"%string ->
  initializeRedisClient redis env' t = initializeRedisClient redis env t.
Proof.
  intros Hurl Hsame. unfold initializeRedisClient.
  by rewrite Hsame, Hurl.
Qed.

Lemma errorsLogged_app (t1 t2 : Trace Client) :
  errorsLogged (t1 ++ t2) = (errorsLogged t1 + errorsLogged t2)%nat.
Proof. unfold errorsLogged. by rewrite omap_app, length_app. Qed.

Lemma runCallback_errorsLogged client n t :
  errorsLogged (snd (runCallback redis (pingProbe client) n t))
  = (errorsLogged t + if isRejected (ping redis client n) then 1 else 0)%nat.
Proof.
  rewrite runCallback_pingProbe.
  destruct (ping redis client n); simpl; rewrite errorsLogged_app;
    unfold errorsLogged; simpl; lia.
Qed.

Lemma failedPings_S client from periods :
  failedPings redis client from (S periods)
  = ((if isRejected (ping redis client from) then 1 else 0)
     + failedPings redis client (S from) periods)%nat.
Proof.
  unfold failedPings. simpl.
  by destruct (isRejected (ping redis client from)).
Qed.

(** X26. Over any number of periods the probe logs one error for each
    ping that fails and nothing for a ping that succeeds or does not
    settle: the errors in the log grow by exactly the number of failed
    pings. *)
Theorem probe_logs_each_failed_ping_once
    (client : Client) (from periods : nat) (t : Trace Client) :
  errorsLogged (snd (runInterval redis (pingProbe client) from periods t))
  = (errorsLogged t + failedPings redis client from periods)%nat.
Proof.
  revert from t.
  induction periods as [|periods IH]; intros from t.
  - unfold failedPings. simpl. lia.
  - rewrite failedPings_S. cbn [runInterval].
    pose proof (runCallback_never_rejects redis (pingProbe client) from t) as Hnever.
    pose proof (runCallback_errorsLogged client from t) as Hlogged.
    destruct (runCallback redis (pingProbe client) from t) as [[[]|err|] t'];
      simpl in Hnever, Hlogged.
    + rewrite IH, Hlogged. lia.
    + by destruct (Hnever err).
    + rewrite IH, Hlogged. lia.
Qed.

(** X27. Whenever the client could be created, the probe interval is
    registered before the connection is attempted, and exactly one
    connection attempt is made; so the probe runs also for a client
    whose [connect] never settles. *)
Theorem probe_registered_before_connect
    (env : Env) (client : Client) (t : Trace Client) :
  createClient redis (clientOptions env) = inl client ->
  exists rest,
    snd (initializeRedisClient redis env t)
    = t ++ [setInterval (pingProbe client) 60000; client_connect client] ++ rest
    /\ connectsTried rest = 0%nat
    /\ intervals rest = [].
Proof.
  intros Hcreate. rewrite (initializeRedisClient_created _ _ _ _ Hcreate). simpl.
  destruct (connect redis client) as [[]|err|]; simpl.
  - exists [console_log "✅ Connected to Redis"]. by rewrite <- app_assoc.
  - exists [console_error "❌ Redis connection error:" err]. by rewrite <- app_assoc.
  - by exists [].
Qed.

End WithLibrary.

(** A store reached by URL, whose parts are set to something else. *)
Definition byUrl : Env :=
  {[ "REDIS_URL"%string := "redis://default:pw@host:6379"%string ]}.

Definition byUrlAndParts : Env :=
  <[ "HOST"%string := "elsewhere"%string ]> byUrl.

(** A library that cannot even create a client. *)
Definition broken : Library string :=
  {| createClient := fun _ => inr "Invalid URL"%string;
     connect := fun _ => Pending;
     ping := fun _ _ => Pending |}.

Lemma initializeRedisClient_rejects_iff_create_throws_witness :
  snd (initializeRedisClient broken ∅ [])
  = [console_error "Failed to connect to Redis:" "Invalid URL"%string].
Proof.
  exact (proj2 (initializeRedisClient_rejects_iff_create_throws broken ∅ []
                  "Invalid URL"%string) eq_refl).
Defined.

Lemma redis_url_takes_precedence_witness :
  initializeRedisClient unreachable byUrlAndParts []
  = initializeRedisClient unreachable byUrl [].
Proof.
  apply (redis_url_takes_precedence unreachable byUrl byUrlAndParts []);
    reflexivity.
Defined.

Lemma probe_registered_before_connect_witness :
  exists rest,
    snd (initializeRedisClient unreachable ∅ [])
    = [] ++ [setInterval (pingProbe "client"%string) 60000;
             client_connect "client"%string] ++ rest
    /\ connectsTried rest = 0%nat
    /\ intervals rest = [].
Proof.
  exact (probe_registered_before_connect unreachable ∅ "client"%string []
           eq_refl).
Defined.

End RedisMore.

(* ====================================================================== *)
(** * More about the client socket factory                                 *)
(* ====================================================================== *)

Module SocketClientMore.
Import JS SocketClient.

(** X28. [serverURL] is always a non-empty string: the value of
    [NEXT_PUBLIC_SERVER_URL] when that is set and not empty, whatever
    [NODE_ENV] says; otherwise the local URL in development and the
    production URL in every other case, also when [NODE_ENV] is not set. *)
Theorem serverURL_is_never_empty (env : Env) :
  truthy (serverURL env) = true
  /\ (truthy (env !! "NEXT_PUBLIC_SERVER_URL"%string) = true ->
      serverURL env = env !! "NEXT_PUBLIC_SERVER_URL"%string)
  /\ (truthy (env !! "NEXT_PUBLIC_SERVER_URL"%string) = false ->
      serverURL env
      = Some (if bool_decide (env !! "NODE_ENV"%string = Some "development"%string)
              then "http://localhost:3001"%string
              else "https://nameless-coast-33840-33c3fd45fe2d.herokuapp.com"%string)).
Proof.
  unfold serverURL, or.
  destruct (truthy (env !! "NEXT_PUBLIC_SERVER_URL"%string)) eqn:Hpublic.
  - split_and!; [exact Hpublic|reflexivity|discriminate].
  - split_and!; [|discriminate|]; by case_bool_decide.
Qed.

Lemma serverURL_is_never_empty_witness :
  serverURL {[ "NEXT_PUBLIC_SERVER_URL"%string := ""%string;
               "NODE_ENV"%string := "development"%string ]}
  = Some "http://localhost:3001"%string.
Proof.
  exact (proj2 (proj2 (serverURL_is_never_empty
           {[ "NEXT_PUBLIC_SERVER_URL"%string := ""%string;
              "NODE_ENV"%string := "development"%string ]})) eq_refl).
Defined.

End SocketClientMore.
